(** * LiveKit operations console: the dashboard's client state

    A shallow embedding of the console's front end: the shared type
    declarations, the [useWebSocket] connection hook, the [useMetrics]
    state hook that folds server messages into the dashboard's lists, and
    the [SystemHealth] health derivation.

    React state is modelled by explicit state passing: a call
    [setX(prev => f prev)] is the state transformer that replaces the
    field [X] by [f X]; React applies queued updaters in call order. *)

From Stdlib Require Import QArith Lqa.
From stdpp Require Import base list strings pretty.

Local Open Scope string_scope.
Local Open Scope list_scope.
Local Open Scope nat_scope.

(** ** Type declarations (types/index.ts) *)

(** A JavaScript [number] as it reaches the console.  Every number here is
    read out of a JSON document, so it is a finite double, hence a
    rational; comparisons of finite doubles agree with those of [Q]. *)
Definition number : Type := Q.

(** [a < b] on numbers, as a boolean. *)
Definition number_lt (a b : number) : bool := negb (Qle_bool b a).

Inductive ConnectionQuality := excellent | good | poor | unknown.

Inductive AlertSeverity := info | warning | critical.

Inductive AlertStatus := active | resolved.

#[global] Instance AlertStatus_eq_dec : EqDecision AlertStatus.
Proof. solve_decision. Defined.

Module Participant.
Record t := mk {
  sid : string;
  identity : string;
  name : option string;
  joined_at : string;
  connection_quality : ConnectionQuality;
  is_publisher : bool;
  tracks_published : number }.
End Participant.

Module Room.
Record t := mk {
  sid : string;
  name : string;
  created_at : string;
  participant_count : number;
  max_participants : number;
  participants : list Participant.t }.
End Room.

Module SystemMetrics.
Record t := mk {
  timestamp : string;
  active_rooms : number;
  total_participants : number;
  join_rate : number;
  leave_rate : number;
  disconnect_rate : number;
  avg_room_duration_seconds : number;
  avg_connection_quality : number }.
End SystemMetrics.

Module Alert.
Record t := mk {
  id : string;
  severity : AlertSeverity;
  status : AlertStatus;
  title : string;
  description : string;
  room_name : option string;
  created_at : string;
  resolved_at : option string }.
End Alert.

Module AlertsResponse.
(** The body of [GET /api/alerts]; the hook reads both fields through
    [|| []], so either may be missing. *)
Record t := mk {
  active : option (list Alert.t);
  resolved : option (list Alert.t) }.
End AlertsResponse.

Module ChartDataPoint.
Record t := mk {
  time : string;
  rooms : number;
  participants : number;
  joinRate : number;
  disconnectRate : number }.
End ChartDataPoint.

Inductive ConnectionStatus := connecting | connected | disconnected | error.

#[global] Instance ConnectionStatus_eq_dec : EqDecision ConnectionStatus.
Proof. solve_decision. Defined.

(** The payload of a message, by the shape the protocol gives it.  The
    hook reads [message.data] through unchecked casts; [data_absent] is a
    message without a [data] field. *)
Inductive MessageData :=
| data_metrics (metrics : SystemMetrics.t)
| data_room (type : string) (room : Room.t)
| data_alert (alert : Alert.t)
| data_heartbeat (timestamp : string)
| data_absent.

(** The [type] tag is kept as the string that [JSON.parse] delivers: the
    declared union is not checked at run time, so any string can arrive. *)
Module WebSocketMessage.
Record t := mk {
  type : string;
  data : MessageData }.
End WebSocketMessage.

(** The messages of the streaming protocol, server to client. *)
Module Protocol.
Definition metrics_update (metrics : SystemMetrics.t) : WebSocketMessage.t :=
  WebSocketMessage.mk "metrics_update" (data_metrics metrics).
Definition room_started (room : Room.t) : WebSocketMessage.t :=
  WebSocketMessage.mk "room_update" (data_room "room_started" room).
Definition room_finished (room : Room.t) : WebSocketMessage.t :=
  WebSocketMessage.mk "room_update" (data_room "room_finished" room).
Definition alert_notice (alert : Alert.t) : WebSocketMessage.t :=
  WebSocketMessage.mk "alert" (data_alert alert).
Definition heartbeat (timestamp : string) : WebSocketMessage.t :=
  WebSocketMessage.mk "heartbeat" (data_heartbeat timestamp).
Definition pong : WebSocketMessage.t := WebSocketMessage.mk "pong" data_absent.
End Protocol.

(** The outcome of one [fetch] as the hook sees it: a body behind
    [res.ok], a status outside 2xx, or a rejected promise ([fetch] or
    [res.json()] throwing into the enclosing [try]). *)
Inductive Response (A : Type) :=
| res_ok (body : A)
| res_not_ok
| res_throws.
Arguments res_ok {A} body.
Arguments res_not_ok {A}.
Arguments res_throws {A}.

(** ** Array helpers *)

(** [arr.some(x => P x)] *)
Definition some {A} (P : A → Prop) `{!∀ x, Decision (P x)} (arr : list A) : bool :=
  bool_decide (Exists P arr).

(** [arr.slice(0, n)] for a non-negative [n]. *)
Definition slice_to {A} (n : nat) (arr : list A) : list A := take n arr.

(** [arr.slice(-n)] for a positive [n]: the last [n] elements, or all of
    them when there are fewer. *)
Definition slice_last {A} (n : nat) (arr : list A) : list A :=
  drop (length arr - n) arr.

Arguments slice_to : simpl never.
Arguments slice_last : simpl never.

(** ** The connection hook (hooks/useWebSocket) *)

Module useWebSocket.

(** The browser objects the hook drives: every socket it ever created with
    its [readyState], every timeout it ever set with its delay, and the
    frames handed to [send]. *)
Inductive ReadyState := CONNECTING | OPEN | CLOSING | CLOSED.

#[global] Instance ReadyState_eq_dec : EqDecision ReadyState.
Proof. solve_decision. Defined.

Inductive TimerState := timer_pending | timer_fired | timer_cleared.

#[global] Instance TimerState_eq_dec : EqDecision TimerState.
Proof. solve_decision. Defined.

Record Timeout := mkTimeout {
  delay : Z;
  timer_state : TimerState }.

(** The object given to [sendMessage]. *)
Record ClientMessage := mkClientMessage { type : string }.

#[global] Instance ClientMessage_eq_dec : EqDecision ClientMessage.
Proof. solve_decision. Defined.

(** The hook's arguments: whether [new WebSocket(url)] accepts the url,
    and the two options with defaults. *)
Record Config := mkConfig {
  url_ok : bool;
  reconnectInterval : Z;
  maxReconnectAttempts : Z }.

Definition defaultConfig : Config :=
  {| url_ok := true; reconnectInterval := 3000; maxReconnectAttempts := 10 |}.

Definition PING_PERIOD : Z := 30000.

(** [{ type: 'ping' }] *)
Definition ping : ClientMessage := mkClientMessage "ping".

(** The two [useState] cells, the four refs, the handle of the ping
    interval (its period while armed), and the browser objects.  A socket
    or timeout is named by its position in its table. *)
Record State := mkState {
  status : ConnectionStatus;
  lastMessage : option WebSocketMessage.t;
  wsRef : option nat;
  reconnectAttemptsRef : Z;
  reconnectTimeoutRef : option nat;
  mountedRef : bool;
  pingInterval : option Z;
  sockets : list ReadyState;
  timeouts : list Timeout;
  sent : list (nat * ClientMessage) }.

Definition setStatus (v : ConnectionStatus) (st : State) : State :=
  mkState v (lastMessage st) (wsRef st) (reconnectAttemptsRef st)
    (reconnectTimeoutRef st) (mountedRef st) (pingInterval st) (sockets st)
    (timeouts st) (sent st).

Definition setLastMessage (v : option WebSocketMessage.t) (st : State) : State :=
  mkState (status st) v (wsRef st) (reconnectAttemptsRef st)
    (reconnectTimeoutRef st) (mountedRef st) (pingInterval st) (sockets st)
    (timeouts st) (sent st).

Definition set_wsRef (v : option nat) (st : State) : State :=
  mkState (status st) (lastMessage st) v (reconnectAttemptsRef st)
    (reconnectTimeoutRef st) (mountedRef st) (pingInterval st) (sockets st)
    (timeouts st) (sent st).

Definition set_reconnectAttemptsRef (v : Z) (st : State) : State :=
  mkState (status st) (lastMessage st) (wsRef st) v
    (reconnectTimeoutRef st) (mountedRef st) (pingInterval st) (sockets st)
    (timeouts st) (sent st).

Definition set_reconnectTimeoutRef (v : option nat) (st : State) : State :=
  mkState (status st) (lastMessage st) (wsRef st) (reconnectAttemptsRef st)
    v (mountedRef st) (pingInterval st) (sockets st) (timeouts st) (sent st).

Definition set_mountedRef (v : bool) (st : State) : State :=
  mkState (status st) (lastMessage st) (wsRef st) (reconnectAttemptsRef st)
    (reconnectTimeoutRef st) v (pingInterval st) (sockets st) (timeouts st)
    (sent st).

Definition set_pingInterval (v : option Z) (st : State) : State :=
  mkState (status st) (lastMessage st) (wsRef st) (reconnectAttemptsRef st)
    (reconnectTimeoutRef st) (mountedRef st) v (sockets st) (timeouts st)
    (sent st).

Definition set_sockets (v : list ReadyState) (st : State) : State :=
  mkState (status st) (lastMessage st) (wsRef st) (reconnectAttemptsRef st)
    (reconnectTimeoutRef st) (mountedRef st) (pingInterval st) v (timeouts st)
    (sent st).

Definition set_timeouts (v : list Timeout) (st : State) : State :=
  mkState (status st) (lastMessage st) (wsRef st) (reconnectAttemptsRef st)
    (reconnectTimeoutRef st) (mountedRef st) (pingInterval st) (sockets st) v
    (sent st).

Definition set_sent (v : list (nat * ClientMessage)) (st : State) : State :=
  mkState (status st) (lastMessage st) (wsRef st) (reconnectAttemptsRef st)
    (reconnectTimeoutRef st) (mountedRef st) (pingInterval st) (sockets st)
    (timeouts st) v.

(** The cells and refs as the hook declares them, before any effect. *)
Definition declared : State :=
  {| status := connecting; lastMessage := None; wsRef := None;
     reconnectAttemptsRef := 0; reconnectTimeoutRef := None;
     mountedRef := true; pingInterval := None; sockets := []; timeouts := [];
     sent := [] |}.

Section Hook.
Variable config : Config.

(** [connect]: the body of the callback without the handlers it installs
    ([onopen], [onclose], [onerror], [onmessage] below). *)
Definition connect (st : State) : State :=
  if negb (mountedRef st) then st
  else if url_ok config then
    setStatus connecting
      (set_wsRef (Some (length (sockets st)))
        (set_sockets (sockets st ++ [CONNECTING]) st))
  else setStatus error st.

Definition onopen (st : State) : State :=
  if negb (mountedRef st) then st
  else set_reconnectAttemptsRef 0 (setStatus connected st).

(** [window.setTimeout(() => connect(), reconnectInterval)]: a new entry
    of the timeout table, whose position is the handle. *)
Definition setTimeout (ms : Z) (st : State) : nat * State :=
  (length (timeouts st),
   set_timeouts (timeouts st ++ [mkTimeout ms timer_pending]) st).

Definition onclose (st : State) : State :=
  if negb (mountedRef st) then st
  else
    let st := setStatus disconnected st in
    if decide (reconnectAttemptsRef st < maxReconnectAttempts config)%Z then
      let st := set_reconnectAttemptsRef (reconnectAttemptsRef st + 1) st in
      let (handle, st) := setTimeout (reconnectInterval config) st in
      set_reconnectTimeoutRef (Some handle) st
    else st.

Definition onerror (st : State) : State :=
  if negb (mountedRef st) then st
  else setStatus error st.

(** [onmessage]: [parsed] is what [JSON.parse(event.data)] yields, [None]
    when it throws.  The [onMessage] callback acts on the state of its
    owner (see [useMetrics.handleMessage]), not on this hook's. *)
Definition onmessage (parsed : option WebSocketMessage.t) (st : State) : State :=
  if negb (mountedRef st) then st
  else
    match parsed with
    | Some message => setLastMessage (Some message) st
    | None => st
    end.

Definition clearTimeout (handle : nat) (st : State) : State :=
  match timeouts st !! handle with
  | Some t =>
      if decide (timer_state t = timer_pending)
      then set_timeouts (<[handle := mkTimeout (delay t) timer_cleared]> (timeouts st)) st
      else st
  | None => st
  end.

(** [ws.close()]: a socket that is not closed yet starts closing. *)
Definition close_socket (i : nat) (st : State) : State :=
  match sockets st !! i with
  | Some CONNECTING | Some OPEN => set_sockets (<[i := CLOSING]> (sockets st)) st
  | _ => st
  end.

Definition disconnect (st : State) : State :=
  let st :=
    match reconnectTimeoutRef st with
    | Some handle => set_reconnectTimeoutRef None (clearTimeout handle st)
    | None => st
    end in
  match wsRef st with
  | Some i => set_wsRef None (close_socket i st)
  | None => st
  end.

Definition sendMessage (message : ClientMessage) (st : State) : State :=
  match wsRef st with
  | Some i =>
      if decide (sockets st !! i = Some OPEN)
      then set_sent (sent st ++ [(i, message)]) st
      else st
  | None => st
  end.

Definition reconnect (st : State) : State :=
  connect (set_reconnectAttemptsRef 0 (disconnect st)).

(** The ping effect, run by React after a render in which [status]
    changed: the cleanup of the previous run clears the interval, the body
    arms a new one only under [connected]. *)
Definition pingEffect (st : State) : State :=
  set_pingInterval
    (if decide (status st = connected) then Some PING_PERIOD else None) st.

Definition render (before : State) (st : State) : State :=
  if decide (status before = status st) then st else pingEffect st.

(** Mounting runs the connection effect and then the ping effect. *)
Definition mount : State :=
  pingEffect (connect (set_mountedRef true declared)).

(** Unmounting runs both cleanups. *)
Definition unmount (st : State) : State :=
  disconnect (set_mountedRef false (set_pingInterval None st)).

(** What the browser and the user can do to the hook. *)
Inductive Event :=
| ws_open (i : nat)
| ws_close (i : nat)
| ws_error (i : nat)
| ws_message (i : nat) (parsed : option WebSocketMessage.t)
| timeout_fires (handle : nat)
| ping_tick
| call_reconnect
| ev_unmount.

(** One event: the browser moves its own object, then the installed
    callback runs.  An event the browser cannot raise (a socket that does
    not exist or is closed already, a timeout that is not pending, a tick
    of an interval that is not armed) leaves the state as it is. *)
Definition handle (e : Event) (st : State) : State :=
  match e with
  | ws_open i =>
      if decide (sockets st !! i = Some CONNECTING)
      then onopen (set_sockets (<[i := OPEN]> (sockets st)) st)
      else st
  | ws_close i =>
      match sockets st !! i with
      | Some CLOSED | None => st
      | Some _ => onclose (set_sockets (<[i := CLOSED]> (sockets st)) st)
      end
  | ws_error i =>
      match sockets st !! i with
      | Some CLOSED | None => st
      | Some _ => onerror st
      end
  | ws_message i parsed =>
      if decide (sockets st !! i = Some OPEN) then onmessage parsed st else st
  | timeout_fires h =>
      match timeouts st !! h with
      | Some t =>
          if decide (timer_state t = timer_pending)
          then connect (set_timeouts (<[h := mkTimeout (delay t) timer_fired]> (timeouts st)) st)
          else st
      | None => st
      end
  | ping_tick =>
      match pingInterval st with
      | Some _ => sendMessage ping st
      | None => st
      end
  | call_reconnect => reconnect st
  | ev_unmount => unmount st
  end.

(** An event followed by the render it causes. *)
Definition step (e : Event) (st : State) : State :=
  match e with
  | ev_unmount => handle e st
  | _ => render st (handle e st)
  end.

Definition run (es : list Event) (st : State) : State :=
  foldl (λ st e, step e st) st es.

(** The delays of all reconnect timeouts set so far, oldest first. *)
Definition retryDelays (st : State) : list Z := delay <$> timeouts st.

(** The part of the state the reconnect loop works on: every timeout ever
    set waits for the configured interval, and the attempt counter stays
    within the cap. *)
Definition retry_inv (st : State) : Prop :=
  Forall (λ t, delay t = reconnectInterval config) (timeouts st) ∧
  (0 ≤ reconnectAttemptsRef st ≤ Z.max 0 (maxReconnectAttempts config))%Z.

End Hook.

(** The ping interval is armed, with its one period, exactly while the
    component is mounted and connected, and nothing but pings was sent. *)
Definition ping_inv (st : State) : Prop :=
  pingInterval st =
    (if mountedRef st && bool_decide (status st = connected)
     then Some PING_PERIOD else None) ∧
  Forall (λ frame, frame.2 = ping) (sent st).

(** A retry schedule backs off exponentially when each delay is the one
    before it times a fixed factor above one. *)
Definition exponential_backoff (delays : list Z) : Prop :=
  ∃ factor : Z, (1 < factor)%Z ∧
    ∀ k d d', delays !! k = Some d → delays !! S k = Some d' → d' = (factor * d)%Z.

End useWebSocket.

(** ** The metrics hook (hooks/useMetrics) *)

Module useMetrics.

Record State := mkState {
  currentMetrics : option SystemMetrics.t;
  rooms : list Room.t;
  activeAlerts : list Alert.t;
  resolvedAlerts : list Alert.t;
  chartData : list ChartDataPoint.t }.

(** The five [useState] initial values. *)
Definition initial : State :=
  {| currentMetrics := None; rooms := []; activeAlerts := [];
     resolvedAlerts := []; chartData := [] |}.

Definition setCurrentMetrics (v : option SystemMetrics.t) (st : State) : State :=
  {| currentMetrics := v; rooms := rooms st; activeAlerts := activeAlerts st;
     resolvedAlerts := resolvedAlerts st; chartData := chartData st |}.

Definition setRooms (f : list Room.t → list Room.t) (st : State) : State :=
  {| currentMetrics := currentMetrics st; rooms := f (rooms st);
     activeAlerts := activeAlerts st; resolvedAlerts := resolvedAlerts st;
     chartData := chartData st |}.

Definition setActiveAlerts (f : list Alert.t → list Alert.t) (st : State) : State :=
  {| currentMetrics := currentMetrics st; rooms := rooms st;
     activeAlerts := f (activeAlerts st); resolvedAlerts := resolvedAlerts st;
     chartData := chartData st |}.

Definition setResolvedAlerts (f : list Alert.t → list Alert.t) (st : State) : State :=
  {| currentMetrics := currentMetrics st; rooms := rooms st;
     activeAlerts := activeAlerts st; resolvedAlerts := f (resolvedAlerts st);
     chartData := chartData st |}.

Definition setChartData
    (f : list ChartDataPoint.t → list ChartDataPoint.t) (st : State) : State :=
  {| currentMetrics := currentMetrics st; rooms := rooms st;
     activeAlerts := activeAlerts st; resolvedAlerts := resolvedAlerts st;
     chartData := f (chartData st) |}.

(** The number of chart points and of resolved alerts the hook keeps. *)
Definition CHART_POINTS : nat := 60.
Definition RESOLVED_KEPT : nat := 20.

(** [new Date(ts).toLocaleTimeString()]: the browser's locale decides the
    rendering, so the hook is read relative to one. *)
Class Locale := toLocaleTimeString : string → string.

Section Hook.
Context `{!Locale}.

(** The chart point built from one snapshot (the same object literal in
    [handleMessage] and in [refreshData]). *)
Definition chartPoint (m : SystemMetrics.t) : ChartDataPoint.t :=
  {| ChartDataPoint.time := toLocaleTimeString (SystemMetrics.timestamp m);
     ChartDataPoint.rooms := SystemMetrics.active_rooms m;
     ChartDataPoint.participants := SystemMetrics.total_participants m;
     ChartDataPoint.joinRate := SystemMetrics.join_rate m;
     ChartDataPoint.disconnectRate := SystemMetrics.disconnect_rate m |}.

(** The updater of [setChartData] in the [metrics_update] case. *)
Definition pushChartPoint (newPoint : ChartDataPoint.t)
    (prev : list ChartDataPoint.t) : list ChartDataPoint.t :=
  let updated := prev ++ [newPoint] in
  if decide (CHART_POINTS < length updated) then slice_last CHART_POINTS updated
  else updated.

(** The updater of [setActiveAlerts] for an active alert. *)
Definition addActive (alert : Alert.t) (prev : list Alert.t) : list Alert.t :=
  let exists_ := some (λ a, Alert.id a = Alert.id alert) prev in
  if exists_ then prev else prev ++ [alert].

(** The updater of [setResolvedAlerts] for a resolved alert message. *)
Definition addResolved (alert : Alert.t) (prev : list Alert.t) : list Alert.t :=
  let exists_ := some (λ a, Alert.id a = Alert.id alert) prev in
  if exists_ then prev else slice_to RESOLVED_KEPT (alert :: prev).

(** [prev.filter(a => a.id !== alertId)] *)
Definition dropAlert (alertId : string) (prev : list Alert.t) : list Alert.t :=
  filter (λ a, Alert.id a ≠ alertId) prev.

(** [prev.filter(r => r.sid !== sid)] *)
Definition dropRoom (sid : string) (prev : list Room.t) : list Room.t :=
  filter (λ r, Room.sid r ≠ sid) prev.

(** [handleMessage].  The result is [None] where the code would read a
    field of a payload that does not have the shape its cast assumes;
    the [heartbeat] case and the absent [default] read nothing. *)
Definition handleMessage (message : WebSocketMessage.t) (st : State) : option State :=
  let type := WebSocketMessage.type message in
  if decide (type = "metrics_update") then
    match WebSocketMessage.data message with
    | data_metrics metrics =>
        Some (setChartData (pushChartPoint (chartPoint metrics))
               (setCurrentMetrics (Some metrics) st))
    | _ => None
    end
  else if decide (type = "room_update") then
    match WebSocketMessage.data message with
    | data_room data_type room =>
        if decide (data_type = "room_started") then
          Some (setRooms (λ prev, prev ++ [room]) st)
        else if decide (data_type = "room_finished") then
          Some (setRooms (dropRoom (Room.sid room)) st)
        else Some st
    | _ => None
    end
  else if decide (type = "alert") then
    match WebSocketMessage.data message with
    | data_alert alert =>
        if decide (Alert.status alert = active) then
          Some (setActiveAlerts (addActive alert) st)
        else
          Some (setResolvedAlerts (addResolved alert)
                 (setActiveAlerts (dropAlert (Alert.id alert)) st))
    | _ => None
    end
  else if decide (type = "heartbeat") then Some st
  else Some st.

(** One [fetch]-and-set step of [refreshData]: [inl] is the jump to the
    [catch] block, [inr] falls through to the next step. *)
Definition fetchStep {A} (res : Response A) (onOk : A → State → State)
    (st : State) : State + State :=
  match res with
  | res_ok body => inr (onOk body st)
  | res_not_ok => inr st
  | res_throws => inl st
  end.

Definition andThen (r : State + State) (k : State → State + State) : State + State :=
  match r with inl st => inl st | inr st => k st end.

Definition caught (r : State + State) : State :=
  match r with inl st => st | inr st => st end.

(** [refreshData]: four fetches in sequence inside one [try]. *)
Definition refreshData
    (metricsRes : Response SystemMetrics.t)
    (roomsRes : Response (list Room.t))
    (alertsRes : Response AlertsResponse.t)
    (historyRes : Response (list SystemMetrics.t))
    (st : State) : State :=
  caught
    (andThen (fetchStep metricsRes (λ metrics, setCurrentMetrics (Some metrics)) st) (λ st,
     andThen (fetchStep roomsRes (λ roomsData, setRooms (λ _, roomsData)) st) (λ st,
     andThen (fetchStep alertsRes (λ alertsData st,
                setResolvedAlerts (λ _, default [] (AlertsResponse.resolved alertsData))
                  (setActiveAlerts (λ _, default [] (AlertsResponse.active alertsData)) st)) st) (λ st,
     fetchStep historyRes (λ history,
                setChartData (λ _, map chartPoint history)) st)))).

(** [resolveAlert]: the state changes only behind [res.ok]. *)
Definition resolveAlert (alertId : string) (res : Response Alert.t) (st : State) : State :=
  match res with
  | res_ok resolved_ =>
      setResolvedAlerts (λ prev, slice_to RESOLVED_KEPT (resolved_ :: prev))
        (setActiveAlerts (dropAlert alertId) st)
  | _ => st
  end.

(** What can happen to the hook's state: a message from the socket, a
    click on an alert's resolve button, a refresh. *)
Inductive Event :=
| ev_message (message : WebSocketMessage.t)
| ev_resolveAlert (alertId : string) (res : Response Alert.t)
| ev_refreshData (metricsRes : Response SystemMetrics.t)
                 (roomsRes : Response (list Room.t))
                 (alertsRes : Response AlertsResponse.t)
                 (historyRes : Response (list SystemMetrics.t)).

Definition step (e : Event) (st : State) : option State :=
  match e with
  | ev_message message => handleMessage message st
  | ev_resolveAlert alertId res => Some (resolveAlert alertId res st)
  | ev_refreshData m r a h => Some (refreshData m r a h st)
  end.

Fixpoint run (es : list Event) (st : State) : option State :=
  match es with
  | [] => Some st
  | e :: es => st' ← step e st; run es st'
  end.

(** Messages alone, as the socket delivers them. *)
Definition replay (messages : list WebSocketMessage.t) (st : State) : option State :=
  run (ev_message <$> messages) st.

(** A message has the payload the protocol gives its [type]; the kinds the
    handler does not read may carry anything. *)
Definition well_shaped (message : WebSocketMessage.t) : bool :=
  let type := WebSocketMessage.type message in
  match WebSocketMessage.data message with
  | data_metrics _ => negb (bool_decide (type = "room_update")) && negb (bool_decide (type = "alert"))
  | data_room _ _ => negb (bool_decide (type = "metrics_update")) && negb (bool_decide (type = "alert"))
  | data_alert _ => negb (bool_decide (type = "metrics_update")) && negb (bool_decide (type = "room_update"))
  | _ => negb (bool_decide (type = "metrics_update")) && negb (bool_decide (type = "room_update"))
         && negb (bool_decide (type = "alert"))
  end.

Definition well_shaped_event (e : Event) : bool :=
  match e with
  | ev_message message => well_shaped message
  | _ => true
  end.

(** *** Reading a message sequence

    The notices a message sequence carries, used to say what the lists
    must hold after a replay. *)

(** The room a [room_started] notice announces. *)
Definition started_room (message : WebSocketMessage.t) : option Room.t :=
  match WebSocketMessage.data message with
  | data_room data_type room =>
      if bool_decide (WebSocketMessage.type message = "room_update")
         && bool_decide (data_type = "room_started")
      then Some room else None
  | _ => None
  end.

(** The room id a [room_finished] notice retires. *)
Definition finished_sid (message : WebSocketMessage.t) : option string :=
  match WebSocketMessage.data message with
  | data_room data_type room =>
      if bool_decide (WebSocketMessage.type message = "room_update")
         && bool_decide (data_type = "room_finished")
      then Some (Room.sid room) else None
  | _ => None
  end.

(** [room] was announced as started somewhere in [messages] and no later
    message announces its id as finished. *)
Definition started_not_finished (messages : list WebSocketMessage.t) (room : Room.t) : Prop :=
  ∃ before notice after,
    messages = before ++ notice :: after ∧
    started_room notice = Some room ∧
    Forall (λ m, finished_sid m ≠ Some (Room.sid room)) after.

(** The alert an event puts at the head of the resolved list in state
    [st]: a resolved alert message whose id the list does not show yet, or
    the body of a successful resolve call. *)
Definition entersResolved (e : Event) (st : State) : option Alert.t :=
  match e with
  | ev_message message =>
      match WebSocketMessage.data message with
      | data_alert alert =>
          if bool_decide (WebSocketMessage.type message = "alert")
             && bool_decide (Alert.status alert ≠ active)
             && negb (some (λ a, Alert.id a = Alert.id alert) (resolvedAlerts st))
          then Some alert else None
      | _ => None
      end
  | ev_resolveAlert _ (res_ok resolved_) => Some resolved_
  | _ => None
  end.

(** Every alert that entered the resolved list over a run from [st],
    newest first, on top of an earlier [log]. *)
Fixpoint resolvedLog (es : list Event) (st : State) (log : list Alert.t) : list Alert.t :=
  match es with
  | [] => log
  | e :: es =>
      match step e st with
      | Some st' =>
          resolvedLog es st'
            (match entersResolved e st with Some a => a :: log | None => log end)
      | None => log
      end
  end.

(** The events of alert traffic: socket messages and resolve calls, but
    no refresh. *)
Definition no_refresh (e : Event) : bool :=
  match e with
  | ev_refreshData _ _ _ _ => false
  | _ => true
  end.

End Hook.

End useMetrics.

(** ** The alert engine's manual resolution (back end) *)

Module AlertEngine.

(** Modelled from the spec: the alert engine's state and its
    [resolve(alert_id)] operation, which live in the back end
    (alerts/engine.py) and are reached by the console only through
    [POST /api/alerts/{id}/resolve].  The engine owns the active alerts
    and a bounded log of resolved ones (the last 20). *)
Record State := mkState {
  active_alerts : list Alert.t;
  resolved_log : list Alert.t }.

(** Modelled from the spec: the resolved-alert retention count (default
    last 20). *)
Definition RESOLVED_RETENTION : nat := 20.

(** Modelled from the spec: resolving flips the status and stamps
    [resolved_at = now]. *)
Definition mark_resolved (now : string) (a : Alert.t) : Alert.t :=
  {| Alert.id := Alert.id a; Alert.severity := Alert.severity a;
     Alert.status := resolved; Alert.title := Alert.title a;
     Alert.description := Alert.description a;
     Alert.room_name := Alert.room_name a;
     Alert.created_at := Alert.created_at a;
     Alert.resolved_at := Some now |}.

(** Modelled from the spec: manual resolution turns an active alert into
    a resolved one at once, stamps it, moves it to the resolved log
    (evicting the oldest beyond the retention count) and answers with the
    now-resolved alert; an id that is not active (unknown, or resolved
    already) is a not-found miss that changes nothing. *)
Definition resolve (alert_id : string) (now : string) (st : State)
    : Response Alert.t * State :=
  match list_find (λ a, Alert.id a = alert_id) (active_alerts st) with
  | Some (_, a) =>
      let a' := mark_resolved now a in
      (res_ok a',
       {| active_alerts := filter (λ a, Alert.id a ≠ alert_id) (active_alerts st);
          resolved_log := slice_last RESOLVED_RETENTION (resolved_log st ++ [a']) |})
  | None => (res_not_ok, st)
  end.

End AlertEngine.

(** ** The health derivation (components/Dashboard/SystemHealth) *)

Module SystemHealth.

Inductive Health := healthy | warning | critical.

Record Props := mkProps {
  connectionStatus : ConnectionStatus;
  metrics : option SystemMetrics.t;
  activeAlertCount : number }.

(** [metrics && metrics.avg_connection_quality < 0.5] *)
Definition degraded (metrics : option SystemMetrics.t) : bool :=
  match metrics with
  | Some m => number_lt (SystemMetrics.avg_connection_quality m) (1 # 2)
  | None => false
  end.

Definition getOverallHealth (props : Props) : Health * string :=
  if decide (connectionStatus props ≠ connected) then (critical, "Disconnected")
  else if number_lt 0%Q (activeAlertCount props) then (warning, "Issues Detected")
  else if degraded (metrics props) then (warning, "Degraded Performance")
  else (healthy, "All Systems Operational").

End SystemHealth.

(** ** The health card's indicators (components/Dashboard/SystemHealth) *)

Module SystemHealthCard.

(** The literal [0.8] as the double it denotes: the double nearest to
    four fifths lies a little above it. *)
Definition double_0_8 : number := 3602879701896397 # 4503599627370496.

(** The colour class of the connection-quality bar. *)
Definition qualityBarColor (quality : number) : string :=
  if number_lt double_0_8 quality then "bg-green-500"
  else if number_lt (1 # 2) quality then "bg-yellow-500"
  else "bg-red-500".

(** The colour classes of the active-alerts badge. *)
Definition alertBadgeColor (activeAlertCount : number) : string :=
  if Qeq_bool activeAlertCount 0 then "bg-green-100 text-green-800"
  else if number_lt activeAlertCount 3%Q then "bg-yellow-100 text-yellow-800"
  else "bg-red-100 text-red-800".

End SystemHealthCard.

(** ** The metrics grid (components/Dashboard/MetricsGrid) *)

Module MetricsGrid.

Inductive Trend := up | down | neutral.

(** The [trend] of the "Connection Quality" card. *)
Definition qualityTrend (metrics : SystemMetrics.t) : Trend :=
  if number_lt SystemHealthCard.double_0_8 (SystemMetrics.avg_connection_quality metrics)
  then up
  else if number_lt (SystemMetrics.avg_connection_quality metrics) (1 # 2) then down
  else neutral.

End MetricsGrid.

(** ** Durations and ages (components/Rooms/RoomDetail, components/Alerts/AlertsPanel)

    A [Date] is read as its [getTime()], whole milliseconds; [created] and
    [now] below are such values of valid dates. *)

(** [Math.floor((now.getTime() - date.getTime()) / 1000)] *)
Definition diffSeconds (date now : Z) : Z := ((now - date) / 1000)%Z.

Module RoomDetail.

(** The three parts [formatDuration] computes.  JavaScript's [%] keeps the
    sign of the dividend ([Z.rem]); [Math.floor] of a quotient is [Z.div]. *)
Definition hours (d : Z) : Z := (d / 3600)%Z.
Definition minutes (d : Z) : Z := (Z.rem d 3600 / 60)%Z.
Definition seconds (d : Z) : Z := Z.rem d 60.

Definition formatDuration (created now : Z) : string :=
  let d := diffSeconds created now in
  if decide (0 < hours d)%Z then
    pretty (hours d) +:+ "h " +:+ pretty (minutes d) +:+ "m"
  else if decide (0 < minutes d)%Z then
    pretty (minutes d) +:+ "m " +:+ pretty (seconds d) +:+ "s"
  else pretty (seconds d) +:+ "s".

End RoomDetail.

Module AlertsPanel.

Definition formatTimeAgo (date now : Z) : string :=
  let d := diffSeconds date now in
  if decide (d < 60)%Z then pretty d +:+ "s ago"
  else if decide (d < 3600)%Z then pretty (d / 60)%Z +:+ "m ago"
  else pretty (d / 3600)%Z +:+ "h ago".

End AlertsPanel.

(** ** The page (App) *)

Module App.

(** The props the page hands to the health card: the socket hook's status,
    the current metrics and [activeAlerts.length]. *)
Definition systemHealthProps (connectionStatus : ConnectionStatus)
    (st : useMetrics.State) : SystemHealth.Props :=
  {| SystemHealth.connectionStatus := connectionStatus;
     SystemHealth.metrics := useMetrics.currentMetrics st;
     SystemHealth.activeAlertCount :=
       inject_Z (Z.of_nat (length (useMetrics.activeAlerts st))) |}.

End App.

(** ** Reading traffic and answers *)

Module Reading.

(** The snapshot a [metrics_update] message carries. *)
Definition snapshot (message : WebSocketMessage.t) : option SystemMetrics.t :=
  match WebSocketMessage.data message with
  | data_metrics metrics =>
      if bool_decide (WebSocketMessage.type message = "metrics_update")
      then Some metrics else None
  | _ => None
  end.

(** The snapshots of a message sequence, in arrival order. *)
Definition snapshots (messages : list WebSocketMessage.t) : list SystemMetrics.t :=
  omap snapshot messages.

(** A fetch rejected, so that control left the [try] block. *)
Definition threw {A} (res : Response A) : bool :=
  match res with res_throws => true | _ => false end.

(** The body of an answer behind [res.ok]. *)
Definition body {A} (res : Response A) : option A :=
  match res with res_ok b => Some b | _ => None end.

End Reading.

(** ** Sample data *)

Module Sample.
Local Open Scope Q_scope.

(** A locale that shows a timestamp as it is written. *)
Definition verbatim : useMetrics.Locale := λ ts, ts.

Definition standup : Room.t :=
  {| Room.sid := "RM_standup"; Room.name := "standup";
     Room.created_at := "2024-01-01T09:00:00Z"; Room.participant_count := 2;
     Room.max_participants := 10; Room.participants := [] |}.

Definition retro : Room.t :=
  {| Room.sid := "RM_retro"; Room.name := "retro";
     Room.created_at := "2024-01-01T10:00:00Z"; Room.participant_count := 0;
     Room.max_participants := 10; Room.participants := [] |}.

Definition tick : SystemMetrics.t :=
  {| SystemMetrics.timestamp := "2024-01-01T09:00:01Z";
     SystemMetrics.active_rooms := 1; SystemMetrics.total_participants := 2;
     SystemMetrics.join_rate := 2; SystemMetrics.leave_rate := 0;
     SystemMetrics.disconnect_rate := 0;
     SystemMetrics.avg_room_duration_seconds := 1;
     SystemMetrics.avg_connection_quality := 1 |}.

Definition high_disconnects (status : AlertStatus) : Alert.t :=
  {| Alert.id := "alert-1"; Alert.severity := warning; Alert.status := status;
     Alert.title := "High disconnect rate";
     Alert.description := "Disconnect rate above threshold";
     Alert.room_name := None; Alert.created_at := "2024-01-01T09:00:02Z";
     Alert.resolved_at :=
       match status with active => None | resolved => Some "2024-01-01T09:05:00Z" end |}.

Definition low_quality (status : AlertStatus) : Alert.t :=
  {| Alert.id := "alert-2"; Alert.severity := critical; Alert.status := status;
     Alert.title := "Low connection quality";
     Alert.description := "Average connection quality below 50%";
     Alert.room_name := None; Alert.created_at := "2024-01-01T09:01:00Z";
     Alert.resolved_at :=
       match status with active => None | resolved => Some "2024-01-01T09:07:00Z" end |}.

End Sample.

(** * Properties of the metrics hook *)

Section MetricsFacts.
Context `{!useMetrics.Locale}.
Import useMetrics.

Implicit Types (message : WebSocketMessage.t) (st : State) (room : Room.t).

Ltac split_kinds :=
  repeat (case_decide || case_bool_decide); simplify_eq/=; try done.

Lemma some_true {A} (P : A → Prop) `{!∀ x, Decision (P x)} (arr : list A) :
  some P arr = true ↔ ∃ x, x ∈ arr ∧ P x.
Proof. unfold some. rewrite bool_decide_eq_true. apply Exists_exists. Qed.

Lemma slice_to_length {A} n (arr : list A) : length (slice_to n arr) ≤ n.
Proof. unfold slice_to. rewrite length_take. lia. Qed.

Lemma slice_last_length {A} n (arr : list A) : length (slice_last n arr) ≤ n.
Proof. unfold slice_last. rewrite length_drop. lia. Qed.

(** What one message does to the rooms list, read off its notices. *)
Lemma handleMessage_rooms message st :
  well_shaped message = true →
  ∃ st', handleMessage message st = Some st' ∧
    rooms st' =
      match started_room message, finished_sid message with
      | Some room, _ => rooms st ++ [room]
      | None, Some sid => dropRoom sid (rooms st)
      | None, None => rooms st
      end.
Proof.
  destruct message as [type data]. unfold well_shaped, handleMessage, started_room, finished_sid.
  simpl. intros Hshape.
  destruct data; split_kinds; eauto.
Qed.

Lemma started_not_finished_cons message messages room :
  started_not_finished (message :: messages) room ↔
    (started_room message = Some room ∧
     Forall (λ m, finished_sid m ≠ Some (Room.sid room)) messages) ∨
    started_not_finished messages room.
Proof.
  unfold started_not_finished. split.
  - intros (before & notice & after & Heq & Hs & Hf).
    destruct before as [|b before]; simplify_eq/=; [by left|].
    right. by exists before, notice, after.
  - intros [[Hs Hf] | (before & notice & after & -> & Hs & Hf)].
    + by exists [], message, messages.
    + by exists (message :: before), notice, after.
Qed.

Lemma started_finished_exclusive message room :
  started_room message = Some room → finished_sid message = None.
Proof.
  unfold started_room, finished_sid. destruct (WebSocketMessage.data message); try done.
  split_kinds.
Qed.

Lemma rooms_after_replay_from messages st :
  Forall (λ m, well_shaped m = true) messages →
  ∃ st', replay messages st = Some st' ∧
    ∀ room, room ∈ rooms st' ↔
      (room ∈ rooms st ∧
       Forall (λ m, finished_sid m ≠ Some (Room.sid room)) messages) ∨
      started_not_finished messages room.
Proof.
  intros Hall. revert st. induction Hall as [|m ms Hm _ IH]; intros st.
  - exists st. split; [done|]. intros room. split; [by left; split|].
    intros [[? _]| (before & ? & ? & Heq & _)]; [done|]. by destruct before.
  - destruct (handleMessage_rooms m st Hm) as (st1 & Hstep & Hrooms).
    destruct (IH st1) as (st' & Hrun & Hchar).
    exists st'. split.
    { unfold replay in *. simpl. by rewrite Hstep. }
    intros room. rewrite Hchar, started_not_finished_cons, Forall_cons, Hrooms.
    destruct (started_room m) as [r|] eqn:Hs.
    + rewrite (started_finished_exclusive _ _ Hs).
      rewrite elem_of_app, list_elem_of_singleton.
      clear. intuition (simplify_eq; auto).
    + destruct (finished_sid m) as [sid|] eqn:Hf.
      * unfold dropRoom. rewrite list_elem_of_filter.
        clear. intuition (simplify_eq; auto).
      * clear. intuition (simplify_eq; auto).
Qed.

(** C1. However room notices interleave with one another and with any other
    traffic, replaying a sequence of (well-shaped) messages on the hook's
    initial state succeeds, and a room is in the rooms list afterwards
    exactly when the sequence announces it as started and no later message
    announces its id as finished. *)
Theorem rooms_after_replay (messages : list WebSocketMessage.t) :
  Forall (λ m, well_shaped m = true) messages →
  ∃ st', replay messages initial = Some st' ∧
    ∀ room, room ∈ rooms st' ↔ started_not_finished messages room.
Proof.
  intros Hall. destruct (rooms_after_replay_from messages initial Hall) as (st' & Hrun & Hchar).
  exists st'. split; [done|]. intros room. rewrite Hchar. simpl.
  split; [intros [[Hin _]|?]; [by apply elem_of_nil in Hin|done] | by right].
Qed.

(** C2 (the code at a duplicate notice). A [room_started] notice for a room
    whose id the list already shows is not ignored: the handler appends the
    room a second time. *)
Theorem duplicate_room_started_is_appended :
  rooms <$> handleMessage (Protocol.room_started Sample.standup)
              (setRooms (λ _, [Sample.standup]) initial)
  = Some [Sample.standup; Sample.standup].
Proof. reflexivity. Qed.

Lemma room_started_appends room st :
  handleMessage (Protocol.room_started room) st
  = Some (setRooms (λ prev, prev ++ [room]) st).
Proof. reflexivity. Qed.

(** C8. A [heartbeat], or a message whose kind is none of [metrics_update],
    [room_update], [alert], [heartbeat] (such as [pong]), is handled without
    failure and leaves the whole state as it was: current metrics, rooms,
    active and resolved alerts, and chart data. *)
Theorem handleMessage_ignores_other_kinds message st :
  WebSocketMessage.type message = "heartbeat" ∨
  WebSocketMessage.type message ∉ ["metrics_update"; "room_update"; "alert"; "heartbeat"] →
  handleMessage message st = Some st.
Proof.
  intros Hkind. unfold handleMessage.
  destruct Hkind as [-> | Hout]; [done|].
  repeat case_decide; try done; exfalso; apply Hout;
    rewrite !elem_of_cons; auto.
Qed.

Lemma addActive_present alert prev :
  (∃ a, a ∈ prev ∧ Alert.id a = Alert.id alert) → addActive alert prev = prev.
Proof.
  intros Hex. unfold addActive.
  by rewrite (proj2 (some_true (λ a, Alert.id a = Alert.id alert) prev) Hex).
Qed.

Lemma addActive_twice alert prev :
  addActive alert (addActive alert prev) = addActive alert prev.
Proof.
  apply addActive_present. unfold addActive.
  destruct (some _ prev) eqn:Hsome.
  - by apply some_true in Hsome.
  - exists alert. split; [|done]. apply elem_of_app. right. by apply list_elem_of_singleton.
Qed.

(** C10. An active alert whose id the active list already shows leaves that
    list (indeed the whole state) unchanged, so delivering the same active
    alert twice from any state gives what delivering it once gives. *)
Theorem duplicate_active_alert_is_idempotent (alert : Alert.t) st :
  Alert.status alert = active →
  ((∃ a, a ∈ activeAlerts st ∧ Alert.id a = Alert.id alert) →
     handleMessage (Protocol.alert_notice alert) st = Some st) ∧
  (handleMessage (Protocol.alert_notice alert) st
     ≫= handleMessage (Protocol.alert_notice alert)
   = handleMessage (Protocol.alert_notice alert) st).
Proof.
  intros Hactive. unfold handleMessage. simpl. rewrite !decide_True by done.
  simpl. split.
  - intros Hex. unfold setActiveAlerts. rewrite (addActive_present _ _ Hex). by destruct st.
  - rewrite decide_True by done. unfold setActiveAlerts. simpl. by rewrite addActive_twice.
Qed.

(** *** The resolved-alerts list *)

Lemma take_cons_take {A} n (a : A) (log : list A) :
  take (S n) (a :: take (S n) log) = take (S n) (a :: log).
Proof. simpl. f_equal. rewrite take_take. f_equal. lia. Qed.

(** What one event other than a refresh does to the resolved list. *)
Lemma step_resolved e st :
  no_refresh e = true → well_shaped_event e = true →
  ∃ st', step e st = Some st' ∧
    resolvedAlerts st' =
      match entersResolved e st with
      | Some a => slice_to RESOLVED_KEPT (a :: resolvedAlerts st)
      | None => resolvedAlerts st
      end.
Proof.
  destruct e as [[type data] | alertId [a| |] | ]; simpl; try done; eauto.
  intros _ Hshape. unfold well_shaped, handleMessage, addResolved in *. simpl in *.
  destruct data; split_kinds; eauto.
  all: eexists; split; [reflexivity|]; simpl.
  all: unfold addResolved; by destruct (some _ (resolvedAlerts st)).
Qed.

Lemma resolved_after_run es st log :
  Forall (λ e, no_refresh e = true ∧ well_shaped_event e = true) es →
  resolvedAlerts st = slice_to RESOLVED_KEPT log →
  ∃ st', run es st = Some st' ∧
    resolvedAlerts st' = slice_to RESOLVED_KEPT (resolvedLog es st log).
Proof.
  intros Hall. revert st log. induction Hall as [|e es [Hnr Hws] _ IH]; intros st log Hlog.
  - by exists st.
  - destruct (step_resolved e st Hnr Hws) as (st1 & Hstep & Hres).
    simpl. rewrite Hstep. simpl. apply IH. rewrite Hres.
    destruct (entersResolved e st); [|done].
    rewrite Hlog. apply take_cons_take.
Qed.

(** C3. After any sequence of socket messages and resolve calls (no
    refresh) on the initial state, the run succeeds, the resolved list has
    at most 20 entries, and it is the first 20 of the alerts that entered
    it, newest first: the most recently resolved alert leads and the
    oldest is the one dropped at the bound. *)
Theorem resolved_alerts_bounded_newest_first (es : list Event) :
  Forall (λ e, no_refresh e = true ∧ well_shaped_event e = true) es →
  ∃ st', run es initial = Some st' ∧
    length (resolvedAlerts st') ≤ 20 ∧
    resolvedAlerts st' = take 20 (resolvedLog es initial []).
Proof.
  intros Hall. destruct (resolved_after_run es initial [] Hall eq_refl) as (st' & Hrun & Hres).
  exists st'. split; [done|]. split; [|done].
  rewrite Hres. apply slice_to_length.
Qed.

(** *** Resolving an alert *)

Lemma list_find_none_iff (alert_id : string) (alerts : list Alert.t) :
  list_find (λ a, Alert.id a = alert_id) alerts = None ↔
  ∀ a, a ∈ alerts → Alert.id a ≠ alert_id.
Proof. rewrite list_find_None, Forall_forall. done. Qed.

(** What the hook does with a successful answer, whatever alert it
    carries: the active list loses exactly the entries of the resolved id
    and keeps the others in order, and the answer leads the resolved list,
    which keeps its first 19 entries behind it. *)
Lemma resolveAlert_ok_moves (alertId : string) (a : Alert.t) st :
  (∀ b, b ∈ activeAlerts (resolveAlert alertId (res_ok a) st) ↔
        b ∈ activeAlerts st ∧ Alert.id b ≠ alertId) ∧
  activeAlerts (resolveAlert alertId (res_ok a) st) `sublist_of` activeAlerts st ∧
  head (resolvedAlerts (resolveAlert alertId (res_ok a) st)) = Some a ∧
  resolvedAlerts (resolveAlert alertId (res_ok a) st) = take 20 (a :: resolvedAlerts st) ∧
  rooms (resolveAlert alertId (res_ok a) st) = rooms st.
Proof.
  simpl. split; [|split; [|done]].
  - intros b. unfold dropAlert. rewrite list_elem_of_filter. tauto.
  - apply sublist_filter.
Qed.

(** The engine's state after a hit: the id has left the active alerts and
    the stamped alert is in the resolved log. *)
Lemma engine_resolve_hit (alertId now : string) (engine : AlertEngine.State) :
  (∃ a, a ∈ AlertEngine.active_alerts engine ∧ Alert.id a = alertId) →
  ∃ a0, a0 ∈ AlertEngine.active_alerts engine ∧ Alert.id a0 = alertId ∧
    (AlertEngine.resolve alertId now engine).1
      = res_ok (AlertEngine.mark_resolved now a0) ∧
    (∀ a, a ∈ AlertEngine.active_alerts (AlertEngine.resolve alertId now engine).2 ↔
          a ∈ AlertEngine.active_alerts engine ∧ Alert.id a ≠ alertId) ∧
    AlertEngine.mark_resolved now a0
      ∈ AlertEngine.resolved_log (AlertEngine.resolve alertId now engine).2.
Proof.
  intros (a & Hin & Hid). unfold AlertEngine.resolve.
  destruct (list_find _ _) as [[i b]|] eqn:Hfind.
  - apply list_find_Some in Hfind as (Hlook & Hb & _).
    exists b. simpl. split; [by eapply list_elem_of_lookup_2|]. split; [done|].
    split; [done|]. split.
    + intros c. rewrite list_elem_of_filter. tauto.
    + unfold slice_last, AlertEngine.RESOLVED_RETENTION.
      rewrite drop_app_le by (rewrite length_app; simpl; lia).
      apply elem_of_app. right. apply list_elem_of_here.
  - by destruct (proj1 (list_find_none_iff _ _) Hfind a Hin).
Qed.

(** C4. Against the engine's resolution as the spec describes it.  An id
    that no active alert carries (unknown, or resolved already) is
    answered with a not-found miss, the engine keeps its alert state, and
    the hook keeps its whole state, both alert lists included.  The hook's
    state changes only behind a successful answer.  An id that an active
    alert carries is answered with that alert, stamped resolved; the
    engine takes the id out of its active alerts and logs the resolved
    alert; the hook takes exactly the entries of that id out of its
    active list, keeping the others, and puts the resolved alert at the
    head of its resolved list. *)
Theorem resolve_miss_leaves_alert_state (alertId now : string)
    (engine : AlertEngine.State) st :
  ((∀ a, a ∈ AlertEngine.active_alerts engine → Alert.id a ≠ alertId) →
     AlertEngine.resolve alertId now engine = (res_not_ok, engine) ∧
     resolveAlert alertId (AlertEngine.resolve alertId now engine).1 st = st) ∧
  (∀ res, resolveAlert alertId res st ≠ st → ∃ a, res = res_ok a) ∧
  ((∃ a, a ∈ AlertEngine.active_alerts engine ∧ Alert.id a = alertId) →
     ∃ a0 a',
       a0 ∈ AlertEngine.active_alerts engine ∧
       a' = AlertEngine.mark_resolved now a0 ∧
       (AlertEngine.resolve alertId now engine).1 = res_ok a' ∧
       Alert.id a' = alertId ∧ Alert.status a' = resolved ∧
       Alert.resolved_at a' = Some now ∧
       (∀ a, a ∈ AlertEngine.active_alerts (AlertEngine.resolve alertId now engine).2 ↔
             a ∈ AlertEngine.active_alerts engine ∧ Alert.id a ≠ alertId) ∧
       a' ∈ AlertEngine.resolved_log (AlertEngine.resolve alertId now engine).2 ∧
       (∀ b, b ∈ activeAlerts (resolveAlert alertId (res_ok a') st) ↔
             b ∈ activeAlerts st ∧ Alert.id b ≠ alertId) ∧
       activeAlerts (resolveAlert alertId (res_ok a') st) `sublist_of` activeAlerts st ∧
       head (resolvedAlerts (resolveAlert alertId (res_ok a') st)) = Some a' ∧
       resolvedAlerts (resolveAlert alertId (res_ok a') st)
         = take 20 (a' :: resolvedAlerts st)).
Proof.
  split; [|split].
  - intros Hmiss. apply (proj2 (list_find_none_iff _ _)) in Hmiss.
    unfold AlertEngine.resolve. by rewrite Hmiss.
  - intros [a| |] Hne; [by exists a|done|done].
  - intros Hhit.
    destruct (engine_resolve_hit alertId now engine Hhit)
      as (a0 & Hin & Hid & Hres & Hact & Hlog).
    destruct (resolveAlert_ok_moves alertId (AlertEngine.mark_resolved now a0) st)
      as (Hmem & Hsub & Hhead & Htake & _).
    exists a0, (AlertEngine.mark_resolved now a0).
    repeat (split; [done|]). done.
Qed.

(** *** The chart history *)

Lemma pushChartPoint_bounded newPoint prev :
  length (pushChartPoint newPoint prev) ≤ CHART_POINTS.
Proof.
  unfold pushChartPoint. case_decide; [apply slice_last_length | lia].
Qed.

(** The new point is always the last one, and what is kept of the old
    points is a suffix of them. *)
Lemma pushChartPoint_keeps_newest newPoint prev :
  ∃ kept, pushChartPoint newPoint prev = kept ++ [newPoint] ∧ kept `suffix_of` prev.
Proof.
  unfold pushChartPoint, slice_last. case_decide as Hlen.
  - rewrite length_app in *. simpl in *.
    exists (drop (length prev + 1 - CHART_POINTS) prev). split.
    + rewrite drop_app_le; [done|]. unfold CHART_POINTS in *. lia.
    + apply suffix_drop.
  - by exists prev.
Qed.

Lemma refreshData_sets_chart metricsRes roomsRes alertsRes history st :
  metricsRes ≠ res_throws → roomsRes ≠ res_throws → alertsRes ≠ res_throws →
  chartData (refreshData metricsRes roomsRes alertsRes (res_ok history) st)
  = chartPoint <$> history.
Proof. by destruct metricsRes, roomsRes, alertsRes. Qed.

(** C7 (the code at an over-long history). A refresh whose history answer
    carries 61 snapshots leaves 61 points in the chart, one more than the
    capacity the message path keeps. *)
Theorem refresh_overfills_chart :
  length (chartData (refreshData res_not_ok res_not_ok res_not_ok
                       (res_ok (replicate 61 Sample.tick)) initial)) = 61
  ∧ CHART_POINTS < 61.
Proof. split; [by vm_compute | unfold CHART_POINTS; lia]. Qed.

End MetricsFacts.

(** * Properties of the connection hook *)

Section ConnectionFacts.
Import useWebSocket.
Variable config : Config.

Implicit Types (st : State) (e : Event).

Lemma Forall_delay_insert (ts : list Timeout) h t s :
  Forall (λ t, delay t = reconnectInterval config) ts →
  ts !! h = Some t →
  Forall (λ t, delay t = reconnectInterval config) (<[h := mkTimeout (delay t) s]> ts).
Proof.
  intros Hall Hh. apply Forall_insert; [done|].
  simpl. by eapply (Forall_lookup_1 _ _ _ _ Hall).
Qed.

Lemma connect_retry_inv st : retry_inv config st → retry_inv config (connect config st).
Proof. unfold connect. by repeat case_match. Qed.

Lemma disconnect_retry_inv st : retry_inv config st → retry_inv config (disconnect st).
Proof.
  intros [Hts Hn]. unfold disconnect, clearTimeout, close_socket.
  repeat (case_match; simpl in * ); simplify_eq/=; split; simpl; try done.
  all: by eapply Forall_delay_insert.
Qed.

Lemma onclose_retry_inv st : retry_inv config st → retry_inv config (onclose config st).
Proof.
  intros [Hts Hn]. unfold onclose. case_match; [done|]. simpl.
  case_decide; simpl; split; simpl; try done; [|lia].
  apply Forall_app. split; [done|]. by apply Forall_singleton.
Qed.

Lemma handle_retry_inv e st : retry_inv config st → retry_inv config (handle config e st).
Proof.
  intros Hinv. destruct e; simpl.
  - case_decide; [|done]. unfold onopen. case_match; [done|].
    destruct Hinv. split; simpl; [done|lia].
  - repeat case_match; try done; by apply onclose_retry_inv.
  - unfold onerror. by repeat case_match.
  - unfold onmessage. by repeat case_match.
  - case_match; [|done]. case_decide; [|done].
    apply connect_retry_inv. destruct Hinv. split; simpl; [|done].
    by eapply Forall_delay_insert.
  - unfold sendMessage. by repeat case_match.
  - unfold reconnect. apply connect_retry_inv.
    destruct (disconnect_retry_inv st Hinv). split; simpl; [done|lia].
  - unfold unmount. by apply disconnect_retry_inv.
Qed.

Lemma render_retry_inv before st : retry_inv config st → retry_inv config (render before st).
Proof. unfold render. by case_decide. Qed.

Lemma step_retry_inv e st : retry_inv config st → retry_inv config (step config e st).
Proof.
  intros Hinv. unfold step.
  destruct e; try apply render_retry_inv; by apply handle_retry_inv.
Qed.

Lemma run_invariant (P : State → Prop) es st :
  (∀ e st, P st → P (step config e st)) → P st → P (run config es st).
Proof.
  intros Hstep. revert st. induction es as [|e es IH]; intros st Hst; [done|].
  simpl. apply IH. by apply Hstep.
Qed.

Lemma mount_retry_inv : retry_inv config (mount config).
Proof.
  unfold mount, connect. simpl. case_match; split; simpl; try done; lia.
Qed.

(** The transition table of the callbacks and what a run keeps. *)
Lemma reconnect_table st (es : list Event) :
  mountedRef st = true →
  (status (onopen st) = connected ∧ reconnectAttemptsRef (onopen st) = 0%Z) ∧
  (status (onerror st) = error ∧
   reconnectAttemptsRef (onerror st) = reconnectAttemptsRef st ∧
   timeouts (onerror st) = timeouts st) ∧
  (status (onclose config st) = disconnected ∧
   ((reconnectAttemptsRef st < maxReconnectAttempts config)%Z →
      reconnectAttemptsRef (onclose config st) = (reconnectAttemptsRef st + 1)%Z ∧
      timeouts (onclose config st)
        = timeouts st ++ [mkTimeout (reconnectInterval config) timer_pending] ∧
      reconnectTimeoutRef (onclose config st) = Some (length (timeouts st))) ∧
   ((maxReconnectAttempts config ≤ reconnectAttemptsRef st)%Z →
      reconnectAttemptsRef (onclose config st) = reconnectAttemptsRef st ∧
      timeouts (onclose config st) = timeouts st ∧
      reconnectTimeoutRef (onclose config st) = reconnectTimeoutRef st)) ∧
  (url_ok config = true → status (connect config st) = connecting) ∧
  (Forall (λ t, delay t = reconnectInterval config)
     (timeouts (run config es (mount config))) ∧
   (0 ≤ reconnectAttemptsRef (run config es (mount config))
      ≤ Z.max 0 (maxReconnectAttempts config))%Z).
Proof.
  intros Hm. unfold onopen, onerror, onclose, connect. rewrite Hm. simpl.
  split; [done|]. split; [done|]. split; [|split].
  - split; [by case_decide|]. split.
    + intros Hlt. by rewrite decide_True.
    + intros Hge. by rewrite decide_False by lia.
  - by intros ->.
  - apply (run_invariant (retry_inv config)); [apply step_retry_inv|apply mount_retry_inv].
Qed.

(** A close event below the cap, as a step. *)
Lemma step_close_below_cap st (i : nat) (s : ReadyState) :
  mountedRef st = true →
  (reconnectAttemptsRef st < maxReconnectAttempts config)%Z →
  sockets st !! i = Some s → s ≠ CLOSED →
  mountedRef (step config (ws_close i) st) = true ∧
  status (step config (ws_close i) st) = disconnected ∧
  timeouts (step config (ws_close i) st)
    = timeouts st ++ [mkTimeout (reconnectInterval config) timer_pending] ∧
  sockets (step config (ws_close i) st) = <[i := CLOSED]> (sockets st) ∧
  reconnectAttemptsRef (step config (ws_close i) st) = (reconnectAttemptsRef st + 1)%Z.
Proof.
  intros Hm Hlt Hi Hs. unfold step, handle. rewrite Hi.
  unfold onclose, render, pingEffect.
  destruct s; try done; simpl; rewrite Hm; simpl;
    (destruct (decide (reconnectAttemptsRef st < maxReconnectAttempts config)%Z);
      [|done]); simpl; by case_decide.
Qed.

(** A pending timeout that fires runs [connect]. *)
Lemma step_timeout_connects st (h : nat) (t : Timeout) :
  mountedRef st = true → url_ok config = true →
  timeouts st !! h = Some t → timer_state t = timer_pending →
  mountedRef (step config (timeout_fires h) st) = true ∧
  status (step config (timeout_fires h) st) = connecting ∧
  wsRef (step config (timeout_fires h) st) = Some (length (sockets st)) ∧
  sockets (step config (timeout_fires h) st) = sockets st ++ [CONNECTING] ∧
  timeouts (step config (timeout_fires h) st)
    = <[h := mkTimeout (delay t) timer_fired]> (timeouts st) ∧
  reconnectAttemptsRef (step config (timeout_fires h) st) = reconnectAttemptsRef st.
Proof.
  intros Hm Hurl Hh Hp. unfold step, handle. rewrite Hh, decide_True by done.
  unfold connect, render, pingEffect. simpl. rewrite Hm, Hurl. simpl.
  by case_decide.
Qed.

(** A timeout that fired or was cleared does nothing more. *)
Lemma step_timeout_spent st (h : nat) (t : Timeout) :
  timeouts st !! h = Some t → timer_state t ≠ timer_pending →
  step config (timeout_fires h) st = st.
Proof.
  intros Hh Hp. unfold step, handle. rewrite Hh, decide_False by done.
  unfold render. by rewrite decide_True.
Qed.

(** An open event on a connecting socket, as a step. *)
Lemma step_open_connects st (i : nat) :
  mountedRef st = true → sockets st !! i = Some CONNECTING →
  status (step config (ws_open i) st) = connected ∧
  reconnectAttemptsRef (step config (ws_open i) st) = 0%Z ∧
  sockets (step config (ws_open i) st) = <[i := OPEN]> (sockets st).
Proof.
  intros Hm Hi. unfold step, handle. rewrite decide_True by done.
  unfold onopen, render, pingEffect. simpl. rewrite Hm. simpl. by case_decide.
Qed.

(** A close event at the cap sets no timeout. *)
Lemma step_close_at_cap st (i : nat) :
  (maxReconnectAttempts config ≤ reconnectAttemptsRef st)%Z →
  timeouts (step config (ws_close i) st) = timeouts st ∧
  reconnectAttemptsRef (step config (ws_close i) st) = reconnectAttemptsRef st.
Proof.
  intros Hge. unfold step, handle, onclose, render, pingEffect.
  repeat (case_match; simpl in *; simplify_eq/=); try done; lia.
Qed.

(** C5. The reconnect loop as the hook runs it.  For a mounted hook the
    channel signals move the status through the four states: open gives
    [connected] and resets the attempt counter, error gives [error] and
    touches neither counter nor timeouts, close gives [disconnected] and,
    below the cap, counts one attempt and sets one timeout of the
    configured interval, while at the cap it sets none; a fired timeout
    connects again ([connecting]).  Over any run from mounting, every
    timeout ever set waits for that same fixed interval and the counter
    never exceeds the cap.  The retry itself: after a close event below
    the cap the timeout that was set is pending with the configured
    interval; when it fires, the hook connects again, so that a fresh
    socket in state CONNECTING is the current one and the status is
    [connecting]; the timeout fires once only; and when the fresh socket
    opens, the status is [connected] and the counter is back at zero.  At
    the cap a close event sets no timeout and leaves the counter. *)
Theorem reconnect_loop_fixed_interval st (es : list Event) :
  mountedRef st = true →
  ((status (onopen st) = connected ∧ reconnectAttemptsRef (onopen st) = 0%Z) ∧
  (status (onerror st) = error ∧
   reconnectAttemptsRef (onerror st) = reconnectAttemptsRef st ∧
   timeouts (onerror st) = timeouts st) ∧
  (status (onclose config st) = disconnected ∧
   ((reconnectAttemptsRef st < maxReconnectAttempts config)%Z →
      reconnectAttemptsRef (onclose config st) = (reconnectAttemptsRef st + 1)%Z ∧
      timeouts (onclose config st)
        = timeouts st ++ [mkTimeout (reconnectInterval config) timer_pending] ∧
      reconnectTimeoutRef (onclose config st) = Some (length (timeouts st))) ∧
   ((maxReconnectAttempts config ≤ reconnectAttemptsRef st)%Z →
      reconnectAttemptsRef (onclose config st) = reconnectAttemptsRef st ∧
      timeouts (onclose config st) = timeouts st ∧
      reconnectTimeoutRef (onclose config st) = reconnectTimeoutRef st)) ∧
  (url_ok config = true → status (connect config st) = connecting) ∧
  (Forall (λ t, delay t = reconnectInterval config)
     (timeouts (run config es (mount config))) ∧
   (0 ≤ reconnectAttemptsRef (run config es (mount config))
      ≤ Z.max 0 (maxReconnectAttempts config))%Z)) ∧
  (∀ (i : nat) (s : ReadyState),
     url_ok config = true →
     (reconnectAttemptsRef st < maxReconnectAttempts config)%Z →
     sockets st !! i = Some s → s ≠ CLOSED →
     let h := length (timeouts st) in
     let fresh := length (sockets st) in
     let st1 := step config (ws_close i) st in
     let st2 := step config (timeout_fires h) st1 in
     let st3 := step config (ws_open fresh) st2 in
     status st1 = disconnected ∧
     timeouts st1 !! h = Some (mkTimeout (reconnectInterval config) timer_pending) ∧
     status st2 = connecting ∧
     wsRef st2 = Some fresh ∧
     sockets st2 !! fresh = Some CONNECTING ∧
     length (sockets st2) = S (length (sockets st)) ∧
     timeouts st2 !! h = Some (mkTimeout (reconnectInterval config) timer_fired) ∧
     reconnectAttemptsRef st2 = (reconnectAttemptsRef st + 1)%Z ∧
     step config (timeout_fires h) st2 = st2 ∧
     status st3 = connected ∧ reconnectAttemptsRef st3 = 0%Z ∧
     sockets st3 !! fresh = Some OPEN) ∧
  (∀ i : nat,
     (maxReconnectAttempts config ≤ reconnectAttemptsRef st)%Z →
     timeouts (step config (ws_close i) st) = timeouts st ∧
     reconnectAttemptsRef (step config (ws_close i) st) = reconnectAttemptsRef st).
Proof.
  intros Hm. split; [by apply reconnect_table|]. split; [|by apply step_close_at_cap].
  intros i s Hurl Hlt Hi Hs h fresh st1 st2 st3.
  destruct (step_close_below_cap st i s Hm Hlt Hi Hs)
    as (Hm1 & Hstatus1 & Hto1 & Hsock1 & Hn1).
  assert (timeouts st1 !! h = Some (mkTimeout (reconnectInterval config) timer_pending))
    as Hh1 by (unfold st1, h; rewrite Hto1; by apply list_lookup_middle).
  destruct (step_timeout_connects st1 h _ Hm1 Hurl Hh1 eq_refl)
    as (Hm2 & Hstatus2 & Hws2 & Hsock2 & Hto2 & Hn2).
  assert (length (sockets st1) = fresh) as Hlen1
    by (unfold st1, fresh; by rewrite Hsock1, length_insert).
  assert (sockets st2 !! fresh = Some CONNECTING) as Hfresh.
  { unfold st2. rewrite Hsock2, <- Hlen1. by apply list_lookup_middle. }
  assert (timeouts st2 !! h = Some (mkTimeout (reconnectInterval config) timer_fired))
    as Hh2.
  { unfold st2. rewrite Hto2. simpl. apply list_lookup_insert_eq.
    by eapply lookup_lt_Some. }
  destruct (step_open_connects st2 fresh Hm2 Hfresh) as (Hstatus3 & Hn3 & Hsock3).
  split; [done|]. split; [done|]. split; [done|].
  split; [by rewrite <- Hlen1|]. split; [done|].
  split; [unfold st2; rewrite Hsock2, length_app, Hlen1; simpl; lia|].
  split; [done|]. split; [unfold st2; by rewrite Hn2|].
  split; [by apply (step_timeout_spent st2 h _ Hh2)|].
  split; [done|]. split; [done|].
  unfold st3. rewrite Hsock3. apply list_lookup_insert_eq. by eapply lookup_lt_Some.
Qed.

(** *** The liveness ping *)

(** What one callback leaves alone. *)
Lemma handle_frame e st :
  e ≠ ev_unmount →
  mountedRef (handle config e st) = mountedRef st ∧
  pingInterval (handle config e st) = pingInterval st ∧
  (mountedRef st = false → status (handle config e st) = status st).
Proof.
  intros Hne. destruct e; try done; simpl;
    unfold onopen, onclose, onerror, onmessage, sendMessage, reconnect, connect,
      disconnect, clearTimeout, close_socket, setTimeout;
    repeat (case_match; simpl in *; simplify_eq/=); try done.
  all: repeat split; try done; intros Hf; rewrite Hf in *; by simplify_eq/=.
Qed.

(** The only callback that sends is the tick of an armed ping interval,
    and it sends one ping. *)
Lemma handle_sent e st :
  sent (handle config e st) = sent st ∨
  (e = ping_tick ∧ is_Some (pingInterval st) ∧
   ∃ i, wsRef st = Some i ∧ sockets st !! i = Some OPEN ∧
        sent (handle config e st) = sent st ++ [(i, ping)]).
Proof.
  destruct e; simpl;
    unfold onopen, onclose, onerror, onmessage, sendMessage, reconnect, connect,
      unmount, disconnect, clearTimeout, close_socket, setTimeout;
    repeat (case_match; simpl in *; simplify_eq/=); auto.
  right. repeat split; eauto.
Qed.

Lemma render_frame before st :
  mountedRef (render before st) = mountedRef st ∧
  status (render before st) = status st ∧
  sent (render before st) = sent st ∧
  pingInterval (render before st) =
    (if decide (status before = status st) then pingInterval st
     else if decide (status st = connected) then Some PING_PERIOD else None).
Proof. unfold render, pingEffect. by case_decide. Qed.

Lemma step_sent e st :
  sent (step config e st) = sent st ∨
  (e = ping_tick ∧ is_Some (pingInterval st) ∧
   ∃ i, wsRef st = Some i ∧ sockets st !! i = Some OPEN ∧
        sent (step config e st) = sent st ++ [(i, ping)]).
Proof.
  assert (sent (step config e st) = sent (handle config e st)) as ->.
  { unfold step. destruct e; try done; apply render_frame. }
  apply handle_sent.
Qed.

Lemma step_ping_inv e st : ping_inv st → ping_inv (step config e st).
Proof.
  intros [Hping Hsent]. split.
  - assert (e = ev_unmount ∨ e ≠ ev_unmount) as [->|Hne]
      by (destruct e; (by left) || (by right)).
    + simpl. unfold unmount, disconnect, clearTimeout, close_socket.
      repeat (case_match; simpl in *; simplify_eq/=); done.
    + destruct (handle_frame e st Hne) as (Hm & Hp & Hs).
      assert (step config e st = render st (handle config e st)) as ->
        by by destruct e.
      destruct (render_frame st (handle config e st)) as (-> & -> & _ & ->).
      rewrite Hm, Hp, Hping.
      destruct (mountedRef st) eqn:Hmounted; simpl.
      * repeat (case_decide || case_bool_decide); congruence.
      * rewrite decide_True; [done|]. symmetry. by apply Hs.
  - destruct (step_sent e st) as [-> | (_ & _ & i & _ & _ & ->)]; [done|].
    apply Forall_app. split; [done|]. by apply Forall_singleton.
Qed.

Lemma mount_ping_inv : ping_inv (mount config).
Proof.
  unfold mount, pingEffect, connect. simpl.
  destruct (url_ok config); split; by simpl.
Qed.

(** What no run from mounting has sent, and when the interval is armed. *)
Lemma ping_safety (es : list Event) :
  let st := run config es (mount config) in
  Forall (λ frame, frame.2 = ping) (sent st) ∧
  (pingInterval st = Some 30000%Z ↔ mountedRef st = true ∧ status st = connected) ∧
  (status st ≠ connected →
     pingInterval st = None ∧ sent (step config ping_tick st) = sent st) ∧
  (∀ e, sent (step config e st) ≠ sent st →
     e = ping_tick ∧ status st = connected ∧
     ∃ i, sent (step config e st) = sent st ++ [(i, ping)]).
Proof.
  intros st.
  assert (ping_inv st) as [Hping Hsent].
  { apply (run_invariant ping_inv); [apply step_ping_inv|apply mount_ping_inv]. }
  assert (pingInterval st = Some 30000%Z ↔ mountedRef st = true ∧ status st = connected)
    as Harmed.
  { rewrite Hping. destruct (mountedRef st); simpl; [|by split; [|intros []]].
    case_bool_decide; split; try done. by intros []. }
  split; [done|]. split; [done|]. split.
  - intros Hne.
    assert (pingInterval st = None) as Hnone.
    { rewrite Hping. rewrite bool_decide_eq_false_2 by done. by rewrite andb_false_r. }
    split; [done|]. unfold step, render. simpl. rewrite Hnone. by rewrite decide_True.
  - intros e Hchg. destruct (step_sent e st) as [? | (-> & Harm & i & _ & _ & Hs)]; [done|].
    split; [done|]. split; [|by exists i].
    destruct Harm as [p Hp]. rewrite Hping in Hp.
    destruct (mountedRef st); simpl in Hp; [|done]. by case_bool_decide.
Qed.

(** A tick of the armed interval with the current socket open sends one
    ping on it and changes nothing else. *)
Lemma tick_sends st (i : nat) (p : Z) :
  pingInterval st = Some p → wsRef st = Some i → sockets st !! i = Some OPEN →
  step config ping_tick st = set_sent (sent st ++ [(i, ping)]) st.
Proof.
  intros Hp Hi Hopen. unfold step, handle. rewrite Hp.
  unfold sendMessage. rewrite Hi.
  destruct (decide (sockets st !! i = Some OPEN)); [|done].
  unfold render. simpl. by rewrite decide_True.
Qed.

Lemma ticks_send (n : nat) st (i : nat) (p : Z) :
  pingInterval st = Some p → wsRef st = Some i → sockets st !! i = Some OPEN →
  sent (run config (replicate n ping_tick) st) = sent st ++ replicate n (i, ping).
Proof.
  revert st. induction n as [|n IH]; intros st Hp Hi Hopen.
  - simpl. by rewrite app_nil_r.
  - replace (run config (replicate (S n) ping_tick) st)
      with (run config (replicate n ping_tick) (step config ping_tick st)) by done.
    rewrite (tick_sends st i p) by done.
    rewrite IH by done. simpl. by rewrite <- app_assoc.
Qed.

(** A tick while the current socket is not open sends nothing. *)
Lemma tick_dropped st :
  (∀ i, wsRef st = Some i → sockets st !! i ≠ Some OPEN) →
  sent (step config ping_tick st) = sent st.
Proof.
  intros Hclosed. destruct (step_sent ping_tick st) as [? | (_ & _ & i & Hi & Hopen & _)];
    [done|]. by destruct (Hclosed i Hi).
Qed.

(** C6. Over any run from mounting: every frame the client has sent is the
    ping message; the ping interval is armed exactly while the hook is
    mounted with status [connected], and then with the one period of
    30000 ms; outside [connected] no interval is armed and a tick sends
    nothing; and a step adds a frame only as the tick of the armed
    interval, one ping on the open socket.  The pings are sent: while the
    hook is mounted with status [connected] and its current socket is
    open, each tick of the interval sends exactly one ping on that
    socket, so [n] ticks send [n] pings; a tick while the current socket
    is not open is dropped. *)
Theorem ping_is_the_only_outbound_traffic (es : list Event) :
  let st := run config es (mount config) in
  (Forall (λ frame, frame.2 = ping) (sent st) ∧
  (pingInterval st = Some 30000%Z ↔ mountedRef st = true ∧ status st = connected) ∧
  (status st ≠ connected →
     pingInterval st = None ∧ sent (step config ping_tick st) = sent st) ∧
  (∀ e, sent (step config e st) ≠ sent st →
     e = ping_tick ∧ status st = connected ∧
     ∃ i, sent (step config e st) = sent st ++ [(i, ping)])) ∧
  (∀ i : nat,
     mountedRef st = true → status st = connected →
     wsRef st = Some i → sockets st !! i = Some OPEN →
     sent (step config ping_tick st) = sent st ++ [(i, ping)] ∧
     ∀ n : nat,
       sent (run config (replicate n ping_tick) st) = sent st ++ replicate n (i, ping)) ∧
  ((∀ i, wsRef st = Some i → sockets st !! i ≠ Some OPEN) →
     sent (step config ping_tick st) = sent st).
Proof.
  intros st. pose proof (ping_safety es) as Hsafe. fold st in Hsafe.
  split; [exact Hsafe|]. split; [|apply tick_dropped].
  intros i Hm Hs Hi Hopen.
  assert (pingInterval st = Some 30000%Z) as Hp
    by (apply (proj1 (proj2 Hsafe)); by split).
  split.
  - by rewrite (tick_sends st i _ Hp Hi Hopen).
  - intros n. by apply (ticks_send n st i _ Hp).
Qed.

End ConnectionFacts.

(** * Properties of the health derivation *)

Section HealthFacts.
Import SystemHealth.

Lemma number_lt_spec (a b : number) : number_lt a b = true ↔ (a < b)%Q.
Proof.
  unfold number_lt. rewrite negb_true_iff, <- not_true_iff_false, Qle_bool_iff.
  split; [apply Qnot_le_lt | apply Qlt_not_le].
Qed.

Lemma degraded_spec (metrics : option SystemMetrics.t) :
  degraded metrics = true ↔
  ∃ m, metrics = Some m ∧ (SystemMetrics.avg_connection_quality m < 1 # 2)%Q.
Proof.
  destruct metrics as [m|]; simpl.
  - rewrite number_lt_spec. split; [by exists m | by intros (? & [= <-] & ?)].
  - split; [done | by intros (? & ? & _)].
Qed.

(** C9. The overall health is [critical] exactly when the connection
    status is not [connected], whatever the metrics and the alert count.
    Under [connected] it is [warning] exactly when the active-alert count
    is positive or a metrics snapshot is present with average connection
    quality below 0.5, and [healthy] otherwise.  So a console that is not
    connected never reports [healthy]. *)
Theorem overall_health_derivation (props : Props) :
  ((getOverallHealth props).1 = critical ↔ connectionStatus props ≠ connected) ∧
  (connectionStatus props = connected →
     ((getOverallHealth props).1 = warning ↔
        (0 < activeAlertCount props)%Q ∨
        ∃ m, metrics props = Some m ∧
             (SystemMetrics.avg_connection_quality m < 1 # 2)%Q) ∧
     ((getOverallHealth props).1 = healthy ↔
        ¬ ((0 < activeAlertCount props)%Q ∨
           ∃ m, metrics props = Some m ∧
                (SystemMetrics.avg_connection_quality m < 1 # 2)%Q))) ∧
  (connectionStatus props ≠ connected → (getOverallHealth props).1 ≠ healthy).
Proof.
  unfold getOverallHealth.
  rewrite <- degraded_spec, <- number_lt_spec.
  destruct (decide (connectionStatus props ≠ connected)) as [Hne|Heq]; simpl.
  - repeat split; try done.
  - destruct (number_lt 0%Q (activeAlertCount props)), (degraded (metrics props));
      simpl; repeat split; try done; try tauto; intros; try intuition congruence.
Qed.

End HealthFacts.

(** * The theorems at concrete inputs *)

Section Instances.
Import useMetrics.

Lemma rooms_after_replay_witness :
  let messages :=
    [Protocol.room_started Sample.standup; Protocol.room_started Sample.retro;
     Protocol.room_finished Sample.standup] in
  Forall (λ m, well_shaped m = true) messages ∧
  ∃ st', @replay Sample.verbatim messages initial = Some st' ∧
    ∀ room, room ∈ rooms st' ↔ started_not_finished messages room.
Proof.
  assert (Forall (λ m, well_shaped m = true)
            [Protocol.room_started Sample.standup; Protocol.room_started Sample.retro;
             Protocol.room_finished Sample.standup]) as Hshape
    by (repeat constructor).
  split; [exact Hshape|].
  exact (@rooms_after_replay Sample.verbatim _ Hshape).
Defined.

Lemma resolved_alerts_bounded_newest_first_witness :
  let es :=
    [ev_message (Protocol.alert_notice (Sample.high_disconnects resolved));
     ev_resolveAlert "alert-1" (res_ok (Sample.high_disconnects resolved))] in
  Forall (λ e, no_refresh e = true ∧ well_shaped_event e = true) es ∧
  ∃ st', @run Sample.verbatim es initial = Some st' ∧
    length (resolvedAlerts st') ≤ 20 ∧
    resolvedAlerts st' = take 20 (@resolvedLog Sample.verbatim es initial []).
Proof.
  assert (Forall (λ e, no_refresh e = true ∧ well_shaped_event e = true)
            [ev_message (Protocol.alert_notice (Sample.high_disconnects resolved));
             ev_resolveAlert "alert-1" (res_ok (Sample.high_disconnects resolved))])
    as Hes by (repeat constructor).
  split; [exact Hes|].
  exact (@resolved_alerts_bounded_newest_first Sample.verbatim _ Hes).
Defined.

Lemma resolve_miss_leaves_alert_state_witness :
  let engine :=
    AlertEngine.mkState [Sample.low_quality active] [Sample.high_disconnects resolved] in
  let st :=
    setResolvedAlerts (λ _, [Sample.high_disconnects resolved])
      (setActiveAlerts (λ _, [Sample.low_quality active]) initial) in
  ((∀ a, a ∈ AlertEngine.active_alerts engine → Alert.id a ≠ "alert-1") ∧
   AlertEngine.resolve "alert-1" "2024-01-01T09:06:00Z" engine = (res_not_ok, engine) ∧
   resolveAlert "alert-1"
     (AlertEngine.resolve "alert-1" "2024-01-01T09:06:00Z" engine).1 st = st) ∧
  ((∃ a, a ∈ AlertEngine.active_alerts engine ∧ Alert.id a = "alert-2") ∧
   ∃ a', (AlertEngine.resolve "alert-2" "2024-01-01T09:06:00Z" engine).1 = res_ok a' ∧
     Alert.status a' = resolved ∧
     (∀ b, b ∈ activeAlerts (resolveAlert "alert-2" (res_ok a') st) ↔
           b ∈ activeAlerts st ∧ Alert.id b ≠ "alert-2") ∧
     head (resolvedAlerts (resolveAlert "alert-2" (res_ok a') st)) = Some a').
Proof.
  assert (∀ a : Alert.t, a ∈ [Sample.low_quality active] → Alert.id a ≠ "alert-1")
    as Hmiss.
  { intros a Hin. apply list_elem_of_singleton in Hin as ->. done. }
  assert (∃ a : Alert.t, a ∈ [Sample.low_quality active] ∧ Alert.id a = "alert-2")
    as Hhit.
  { exists (Sample.low_quality active). split; [apply list_elem_of_here | done]. }
  split.
  - split; [exact Hmiss|].
    exact (proj1 (resolve_miss_leaves_alert_state "alert-1" "2024-01-01T09:06:00Z"
                    (AlertEngine.mkState [Sample.low_quality active]
                       [Sample.high_disconnects resolved])
                    (setResolvedAlerts (λ _, [Sample.high_disconnects resolved])
                       (setActiveAlerts (λ _, [Sample.low_quality active]) initial)))
                 Hmiss).
  - split; [exact Hhit|].
    destruct (proj2 (proj2 (resolve_miss_leaves_alert_state "alert-2"
                    "2024-01-01T09:06:00Z"
                    (AlertEngine.mkState [Sample.low_quality active]
                       [Sample.high_disconnects resolved])
                    (setResolvedAlerts (λ _, [Sample.high_disconnects resolved])
                       (setActiveAlerts (λ _, [Sample.low_quality active]) initial))))
                 Hhit)
      as (a0 & a' & _ & _ & Hres & _ & Hstatus & _ & _ & _ & Hmem & _ & Hhead & _).
    exists a'. split; [exact Hres|]. split; [exact Hstatus|].
    split; [exact Hmem | exact Hhead].
Defined.

Lemma handleMessage_ignores_other_kinds_witness :
  (WebSocketMessage.type Protocol.pong = "heartbeat" ∨
   WebSocketMessage.type Protocol.pong
     ∉ ["metrics_update"; "room_update"; "alert"; "heartbeat"]) ∧
  @handleMessage Sample.verbatim Protocol.pong initial = Some initial.
Proof.
  assert (WebSocketMessage.type Protocol.pong = "heartbeat" ∨
          WebSocketMessage.type Protocol.pong
            ∉ ["metrics_update"; "room_update"; "alert"; "heartbeat"]) as Hkind.
  { right. simpl. rewrite !elem_of_cons, elem_of_nil. by intros [|[|[|[|]]]]. }
  split; [exact Hkind|].
  exact (@handleMessage_ignores_other_kinds Sample.verbatim _ initial Hkind).
Defined.

Lemma duplicate_active_alert_is_idempotent_witness :
  let alert := Sample.high_disconnects active in
  let st := setActiveAlerts (λ _, [alert]) initial in
  Alert.status alert = active ∧
  (∃ a, a ∈ activeAlerts st ∧ Alert.id a = Alert.id alert) ∧
  @handleMessage Sample.verbatim (Protocol.alert_notice alert) st = Some st.
Proof.
  assert (∃ a, a ∈ [Sample.high_disconnects active] ∧
               Alert.id a = Alert.id (Sample.high_disconnects active)) as Hpresent.
  { exists (Sample.high_disconnects active). split; [apply list_elem_of_here | done]. }
  split; [reflexivity|]. split; [exact Hpresent|].
  exact (proj1 (@duplicate_active_alert_is_idempotent Sample.verbatim
                  (Sample.high_disconnects active)
                  (setActiveAlerts (λ _, [Sample.high_disconnects active]) initial)
                  eq_refl) Hpresent).
Defined.

End Instances.

Section ConnectionInstances.
Import useWebSocket.

Lemma reconnect_loop_fixed_interval_witness :
  let st := mount defaultConfig in
  let st1 := step defaultConfig (ws_close 0) st in
  let st2 := step defaultConfig (timeout_fires 0) st1 in
  (mountedRef st = true ∧ url_ok defaultConfig = true ∧
   (reconnectAttemptsRef st < maxReconnectAttempts defaultConfig)%Z ∧
   sockets st !! 0 = Some CONNECTING ∧ CONNECTING ≠ CLOSED) ∧
  status (onclose defaultConfig st) = disconnected ∧
  timeouts (onclose defaultConfig st) = [mkTimeout 3000 timer_pending] ∧
  status st1 = disconnected ∧
  timeouts st1 !! 0 = Some (mkTimeout 3000 timer_pending) ∧
  status st2 = connecting ∧ wsRef st2 = Some 1 ∧
  sockets st2 !! 1 = Some CONNECTING ∧
  retryDelays (run defaultConfig [ws_close 0] st) = [3000%Z].
Proof.
  assert (CONNECTING ≠ CLOSED) as Hs by done.
  pose proof (reconnect_loop_fixed_interval defaultConfig (mount defaultConfig)
                [ws_close 0] eq_refl) as ((_ & _ & (Hstatus & Hbelow & _) & _ & _) & Hretry & _).
  pose proof (Hretry 0 CONNECTING eq_refl eq_refl eq_refl Hs)
    as (Hs1 & Hh1 & Hs2 & Hws2 & Hfresh & _).
  split; [by repeat split|]. split; [exact Hstatus|].
  split; [exact (proj1 (proj2 (Hbelow eq_refl)))|].
  split; [exact Hs1|]. split; [exact Hh1|]. split; [exact Hs2|].
  split; [exact Hws2|]. split; [exact Hfresh | reflexivity].
Defined.

Lemma ping_is_the_only_outbound_traffic_witness :
  let st := run defaultConfig [ws_open 0] (mount defaultConfig) in
  (mountedRef st = true ∧ status st = connected ∧ wsRef st = Some 0 ∧
   sockets st !! 0 = Some OPEN) ∧
  pingInterval st = Some 30000%Z ∧
  sent (step defaultConfig ping_tick st) = [(0, ping)] ∧
  sent (run defaultConfig (replicate 3 ping_tick) st)
    = [(0, ping); (0, ping); (0, ping)].
Proof.
  pose proof (ping_is_the_only_outbound_traffic defaultConfig [ws_open 0])
    as ((_ & Harmed & _) & Hsends & _).
  pose proof (Hsends 0 eq_refl eq_refl eq_refl eq_refl) as (Hone & Hmany).
  split; [by repeat split|].
  split; [exact (proj2 Harmed (conj eq_refl eq_refl))|].
  split; [exact Hone | exact (Hmany 3)].
Defined.

(** C5 as stated fails: the first retry and the second wait the same 3000
    ms, so the delays follow no exponential schedule. *)
Lemma reconnect_delays_stay_constant :
  let st := run defaultConfig [ws_close 0; timeout_fires 0; ws_close 1]
              (mount defaultConfig) in
  retryDelays st = [3000; 3000]%Z ∧ ¬ exponential_backoff (retryDelays st).
Proof.
  split; [reflexivity|].
  intros (factor & Hfactor & Hgrow).
  specialize (Hgrow 0 3000%Z 3000%Z eq_refl eq_refl). lia.
Qed.

End ConnectionInstances.

(** * Further properties of the metrics hook *)

Section MetricsMore.
Context `{!useMetrics.Locale}.
Import useMetrics.

Implicit Types (message : WebSocketMessage.t) (st : State) (alert : Alert.t).

Ltac by_kind :=
  repeat (case_decide || case_bool_decide); simplify_eq/=; try done.

(** **** The chart *)

Lemma pushChartPoint_slice newPoint prev :
  pushChartPoint newPoint prev = slice_last CHART_POINTS (prev ++ [newPoint]).
Proof.
  unfold pushChartPoint, slice_last. case_decide as Hlen; [done|].
  replace (length (prev ++ [newPoint]) - CHART_POINTS) with 0 by lia. done.
Qed.

Lemma slice_last_app_slice {A} n (l k : list A) :
  slice_last n (slice_last n l ++ k) = slice_last n (l ++ k).
Proof.
  unfold slice_last. rewrite !length_app, length_drop.
  destruct (decide (length l ≤ n)) as [Hle|Hgt].
  - replace (length l - n) with 0 by lia. simpl. f_equal. lia.
  - replace (length l - (length l - n) + length k - n) with (length k) by lia.
    replace (length l + length k - n) with ((length l - n) + length k) by lia.
    rewrite <- drop_drop. f_equal. rewrite drop_app_le by lia. done.
Qed.

(** What one message does to the chart and to the current metrics. *)
Lemma handleMessage_chart message st :
  well_shaped message = true →
  ∃ st', handleMessage message st = Some st' ∧
    chartData st' =
      match Reading.snapshot message with
      | Some m => pushChartPoint (chartPoint m) (chartData st)
      | None => chartData st
      end ∧
    currentMetrics st' =
      match Reading.snapshot message with
      | Some m => Some m
      | None => currentMetrics st
      end.
Proof.
  destruct message as [type data].
  unfold well_shaped, handleMessage, Reading.snapshot. simpl. intros Hshape.
  destruct data; by_kind; eauto.
Qed.

Lemma chart_after_replay_from messages st :
  Forall (λ m, well_shaped m = true) messages →
  length (chartData st) ≤ CHART_POINTS →
  ∃ st', replay messages st = Some st' ∧
    chartData st' =
      slice_last CHART_POINTS
        (chartData st ++ (chartPoint <$> Reading.snapshots messages)) ∧
    currentMetrics st' =
      from_option Some (currentMetrics st) (last (Reading.snapshots messages)).
Proof.
  intros Hall. revert st. induction Hall as [|m ms Hm _ IH]; intros st Hlen.
  - exists st. split; [done|]. split; [|done]. simpl. rewrite app_nil_r.
    unfold slice_last. by replace (length (chartData st) - CHART_POINTS) with 0 by lia.
  - destruct (handleMessage_chart m st Hm) as (st1 & Hstep & Hchart & Hcur).
    assert (length (chartData st1) ≤ CHART_POINTS) as Hlen1.
    { rewrite Hchart. destruct (Reading.snapshot m); [apply pushChartPoint_bounded|done]. }
    destruct (IH st1 Hlen1) as (st' & Hrun & Hchart' & Hcur').
    exists st'. split; [unfold replay in *; simpl; by rewrite Hstep|].
    unfold Reading.snapshots in *. simpl.
    rewrite Hchart', Hcur', Hchart, Hcur.
    destruct (Reading.snapshot m) as [x|]; simpl; [|done]. split.
    + rewrite pushChartPoint_slice, slice_last_app_slice.
      by rewrite <- app_assoc.
    + change (list_omap _ _ Reading.snapshot ms) with (omap Reading.snapshot ms).
      destruct (omap Reading.snapshot ms) as [|y ys _] using rev_ind; [done|].
      by rewrite app_comm_cons, !last_snoc.
Qed.

(** X1. Whatever other traffic is interleaved, after a replay from the
    initial state the chart holds the points of the last 60 snapshots that
    arrived as [metrics_update] messages, in arrival order, and the current
    metrics are the last snapshot (none while no snapshot arrived). *)
Theorem chart_shows_last_snapshots (messages : list WebSocketMessage.t) :
  Forall (λ m, well_shaped m = true) messages →
  ∃ st', replay messages initial = Some st' ∧
    chartData st' = chartPoint <$> slice_last 60 (Reading.snapshots messages) ∧
    currentMetrics st' = last (Reading.snapshots messages).
Proof.
  intros Hall.
  destruct (chart_after_replay_from messages initial Hall) as (st' & Hrun & Hchart & Hcur);
    [simpl; lia|].
  exists st'. split; [done|]. split.
  - rewrite Hchart. simpl. unfold slice_last, CHART_POINTS.
    by rewrite fmap_drop, length_fmap.
  - rewrite Hcur. simpl. by destruct (last _).
Qed.

(** **** Alert lists *)

Lemma ids_filter_NoDup (P : Alert.t → Prop) `{!∀ a, Decision (P a)} (l : list Alert.t) :
  NoDup (Alert.id <$> l) → NoDup (Alert.id <$> filter P l).
Proof.
  induction l as [|a l IH]; [done|]. rewrite fmap_cons, NoDup_cons. intros [Hnin Hnd].
  rewrite filter_cons. case_decide; [|by apply IH].
  rewrite fmap_cons, NoDup_cons. split; [|by apply IH].
  intros Hin. apply Hnin. apply list_elem_of_fmap in Hin as (b & -> & Hb).
  apply list_elem_of_filter in Hb as [_ Hb]. apply list_elem_of_fmap. eauto.
Qed.

Lemma addActive_NoDup alert prev :
  NoDup (Alert.id <$> prev) → NoDup (Alert.id <$> addActive alert prev).
Proof.
  intros Hnd. unfold addActive.
  destruct (some _ prev) eqn:Hsome; [done|].
  rewrite fmap_app. apply NoDup_app. split; [done|]. split; [|apply NoDup_singleton].
  intros x Hx Hx'. apply list_elem_of_singleton in Hx' as ->.
  apply list_elem_of_fmap in Hx as (a & Ha & Hin).
  assert (some (λ a, Alert.id a = Alert.id alert) prev = true) as Htrue
    by (apply some_true; eauto).
  congruence.
Qed.

Lemma addActive_all_active alert prev :
  Alert.status alert = active →
  Forall (λ a, Alert.status a = active) prev →
  Forall (λ a, Alert.status a = active) (addActive alert prev).
Proof.
  intros Hs Hall. unfold addActive. destruct (some _ prev); [done|].
  apply Forall_app. split; [done|]. by apply Forall_singleton.
Qed.

Lemma addResolved_NoDup alert prev :
  NoDup (Alert.id <$> prev) → NoDup (Alert.id <$> addResolved alert prev).
Proof.
  intros Hnd. unfold addResolved.
  destruct (some _ prev) eqn:Hsome; [done|].
  unfold slice_to. rewrite fmap_take.
  eapply sublist_NoDup; [|apply sublist_take].
  rewrite fmap_cons. apply NoDup_cons. split; [|done].
  intros Hin. apply list_elem_of_fmap in Hin as (a & Ha & Hin).
  assert (some (λ a, Alert.id a = Alert.id alert) prev = true) as Htrue
    by (apply some_true; eauto).
  congruence.
Qed.

(** What one event other than a refresh does to the active list. *)
Lemma step_active e st :
  no_refresh e = true → well_shaped_event e = true →
  ∃ st', step e st = Some st' ∧
    (activeAlerts st' = activeAlerts st ∨
     (∃ alert, Alert.status alert = active ∧
               activeAlerts st' = addActive alert (activeAlerts st)) ∨
     (∃ alertId, activeAlerts st' = dropAlert alertId (activeAlerts st))).
Proof.
  destruct e as [[type data] | alertId [a| |] | ]; simpl; try done; eauto.
  - intros _ Hshape. unfold well_shaped, handleMessage in *. simpl in *.
    destruct data; by_kind; eauto 7.
  - intros _ _. eexists. split; [done|]. simpl. eauto.
Qed.

(** X2. Over any run of socket messages and resolve calls (no refresh)
    from the initial state, no two entries of the active list share an id,
    and every entry has status [active]. *)
Theorem active_alerts_unique_and_active (es : list Event) :
  Forall (λ e, no_refresh e = true ∧ well_shaped_event e = true) es →
  ∃ st', run es initial = Some st' ∧
    NoDup (Alert.id <$> activeAlerts st') ∧
    Forall (λ a, Alert.status a = active) (activeAlerts st').
Proof.
  intros Hall.
  assert (∀ st, NoDup (Alert.id <$> activeAlerts st) →
                Forall (λ a, Alert.status a = active) (activeAlerts st) →
            ∃ st', run es st = Some st' ∧
              NoDup (Alert.id <$> activeAlerts st') ∧
              Forall (λ a, Alert.status a = active) (activeAlerts st')) as Hgen.
  { induction Hall as [|e es [Hnr Hws] _ IH]; intros st Hnd Hact; [by exists st|].
    destruct (step_active e st Hnr Hws) as (st1 & Hstep & Hcases).
    simpl. rewrite Hstep. simpl. apply IH.
    - destruct Hcases as [-> | [(alert & _ & ->) | (alertId & ->)]];
        [done | by apply addActive_NoDup | by apply ids_filter_NoDup].
    - destruct Hcases as [-> | [(alert & Hs & ->) | (alertId & ->)]];
        [done | by apply addActive_all_active |].
      apply Forall_forall. intros a Ha. unfold dropAlert in Ha.
      apply list_elem_of_filter in Ha as [_ Ha].
      by apply (proj1 (Forall_forall _ _) Hact). }
  apply Hgen; simpl; constructor.
Qed.

(** What one message does to the resolved list. *)
Lemma handleMessage_resolved message st :
  well_shaped message = true →
  ∃ st', handleMessage message st = Some st' ∧
    (resolvedAlerts st' = resolvedAlerts st ∨
     ∃ alert, resolvedAlerts st' = addResolved alert (resolvedAlerts st)).
Proof.
  destruct message as [type data]. unfold well_shaped, handleMessage. simpl.
  intros Hshape. destruct data; by_kind; eauto.
Qed.

(** X7. Under socket messages alone, replayed from the initial state, no
    two entries of the resolved list share an id. *)
Theorem resolved_alerts_unique_under_messages (messages : list WebSocketMessage.t) :
  Forall (λ m, well_shaped m = true) messages →
  ∃ st', replay messages initial = Some st' ∧
    NoDup (Alert.id <$> resolvedAlerts st').
Proof.
  intros Hall.
  assert (∀ st, NoDup (Alert.id <$> resolvedAlerts st) →
            ∃ st', replay messages st = Some st' ∧
              NoDup (Alert.id <$> resolvedAlerts st')) as Hgen.
  { induction Hall as [|m ms Hm _ IH]; intros st Hnd; [by exists st|].
    destruct (handleMessage_resolved m st Hm) as (st1 & Hstep & Hcases).
    unfold replay in *. simpl. rewrite Hstep. simpl. apply IH.
    destruct Hcases as [-> | (alert & ->)]; [done | by apply addResolved_NoDup]. }
  apply Hgen. simpl. constructor.
Qed.

(** X3. A message for an alert that is not active takes every alert of
    that id out of the active list, keeps the other active alerts as they
    were, leaves an alert of that id in the resolved list, and touches
    neither the rooms nor the metrics nor the chart. *)
Theorem resolved_alert_message_moves_alert alert st :
  Alert.status alert ≠ active →
  ∃ st', handleMessage (Protocol.alert_notice alert) st = Some st' ∧
    (∀ a, a ∈ activeAlerts st' ↔ a ∈ activeAlerts st ∧ Alert.id a ≠ Alert.id alert) ∧
    activeAlerts st' `sublist_of` activeAlerts st ∧
    (∃ a, a ∈ resolvedAlerts st' ∧ Alert.id a = Alert.id alert) ∧
    rooms st' = rooms st ∧ currentMetrics st' = currentMetrics st ∧
    chartData st' = chartData st.
Proof.
  intros Hs. unfold handleMessage. simpl. rewrite decide_False by done.
  eexists. split; [done|]. simpl. split; [|split; [|split; [|done]]].
  - intros a. unfold dropAlert. rewrite list_elem_of_filter. tauto.
  - apply sublist_filter.
  - unfold addResolved. destruct (some _ (resolvedAlerts st)) eqn:Hsome.
    + by apply some_true in Hsome.
    + exists alert. split; [|done]. unfold slice_to, RESOLVED_KEPT. simpl.
      apply list_elem_of_here.
Qed.

(** **** Rooms *)

(** X4. A [room_finished] notice removes every entry of that room id,
    keeps the other rooms in their order, changes nothing when no entry
    has the id, and handling it a second time changes nothing more. *)
Theorem room_finished_removes_every_copy (room : Room.t) st :
  ∃ st', handleMessage (Protocol.room_finished room) st = Some st' ∧
    (∀ r, r ∈ rooms st' ↔ r ∈ rooms st ∧ Room.sid r ≠ Room.sid room) ∧
    rooms st' `sublist_of` rooms st ∧
    ((∀ r, r ∈ rooms st → Room.sid r ≠ Room.sid room) → st' = st) ∧
    handleMessage (Protocol.room_finished room) st' = Some st'.
Proof.
  unfold handleMessage. simpl. eexists. split; [done|]. simpl.
  assert (∀ l : list Room.t, (∀ r, r ∈ l → Room.sid r ≠ Room.sid room) →
            dropRoom (Room.sid room) l = l) as Hid.
  { intros l Hl. unfold dropRoom. induction l as [|r l IH]; [done|].
    rewrite filter_cons_True by (apply Hl; left).
    f_equal. apply IH. intros r' Hr'. apply Hl. by right. }
  split; [|split; [|split]].
  - intros r. unfold dropRoom. rewrite list_elem_of_filter. tauto.
  - apply sublist_filter.
  - intros Hnone. unfold setRooms. rewrite (Hid _ Hnone). by destruct st.
  - unfold setRooms. simpl. rewrite Hid; [done|].
    intros r Hr. unfold dropRoom in Hr. by apply list_elem_of_filter in Hr as [? _].
Qed.

(** **** Frames *)

(** X5. Each kind of message touches only its own part of the state: a
    [room_update] only the rooms, an [alert] only the two alert lists, a
    [metrics_update] only the current metrics and the chart. *)
Theorem message_touches_only_its_part message st st' :
  handleMessage message st = Some st' →
  (WebSocketMessage.type message = "room_update" →
     currentMetrics st' = currentMetrics st ∧ chartData st' = chartData st ∧
     activeAlerts st' = activeAlerts st ∧ resolvedAlerts st' = resolvedAlerts st) ∧
  (WebSocketMessage.type message = "alert" →
     currentMetrics st' = currentMetrics st ∧ chartData st' = chartData st ∧
     rooms st' = rooms st) ∧
  (WebSocketMessage.type message = "metrics_update" →
     rooms st' = rooms st ∧
     activeAlerts st' = activeAlerts st ∧ resolvedAlerts st' = resolvedAlerts st).
Proof.
  destruct message as [type data]. unfold handleMessage. simpl. intros Hstep.
  destruct data; by_kind.
Qed.

(** **** Refresh *)

(** X6. In a refresh a part of the state is replaced by the server's
    answer exactly when its own fetch answered ok and no earlier fetch of
    the sequence (metrics, rooms, alerts, history) threw; otherwise it keeps
    its value.  A missing [active] or [resolved] field reads as empty. *)
Theorem refreshData_by_part metricsRes roomsRes alertsRes historyRes st :
  let st' := refreshData metricsRes roomsRes alertsRes historyRes st in
  currentMetrics st' =
    from_option Some (currentMetrics st) (Reading.body metricsRes) ∧
  rooms st' =
    (if Reading.threw metricsRes then rooms st
     else default (rooms st) (Reading.body roomsRes)) ∧
  activeAlerts st' =
    (if Reading.threw metricsRes || Reading.threw roomsRes then activeAlerts st
     else from_option (λ d, default [] (AlertsResponse.active d)) (activeAlerts st)
            (Reading.body alertsRes)) ∧
  resolvedAlerts st' =
    (if Reading.threw metricsRes || Reading.threw roomsRes then resolvedAlerts st
     else from_option (λ d, default [] (AlertsResponse.resolved d)) (resolvedAlerts st)
            (Reading.body alertsRes)) ∧
  chartData st' =
    (if Reading.threw metricsRes || Reading.threw roomsRes || Reading.threw alertsRes
     then chartData st
     else from_option (fmap chartPoint) (chartData st) (Reading.body historyRes)).
Proof. by destruct metricsRes, roomsRes, alertsRes, historyRes. Qed.

End MetricsMore.

(** * Further properties of the connection hook *)

Section ConnectionMore.
Import useWebSocket.
Variable config : Config.

Implicit Types (st : State) (e : Event).

Ltac crush_hook :=
  unfold onopen, onclose, onerror, onmessage, sendMessage, reconnect, connect,
    unmount, disconnect, clearTimeout, close_socket, setTimeout, render, pingEffect;
  repeat (case_match; simpl in *; simplify_eq/=);
  rewrite ?length_app, ?length_insert; simpl; try done.

(** **** After unmounting *)

(** What no step changes once the hook is unmounted and its ping interval
    is cleared. *)
Lemma step_unmounted e st :
  mountedRef st = false → pingInterval st = None →
  mountedRef (step config e st) = false ∧
  pingInterval (step config e st) = None ∧
  status (step config e st) = status st ∧
  lastMessage (step config e st) = lastMessage st ∧
  sent (step config e st) = sent st ∧
  length (sockets (step config e st)) = length (sockets st) ∧
  length (timeouts (step config e st)) = length (timeouts st).
Proof.
  intros Hm Hp. destruct e; unfold step, handle; crush_hook.
  all: try by (rewrite ?Hm, ?Hp in * ).
Qed.

(** X8. Once unmounted the hook is inert: whatever the browser or a
    caller does afterwards, the status and the last message stay as they
    were, no frame is sent, no socket is created, no timeout is set and
    the ping interval stays cleared. *)
Theorem unmounted_hook_is_inert st (es : list Event) :
  let st0 := unmount st in
  let st' := run config es st0 in
  mountedRef st' = false ∧ pingInterval st' = None ∧
  status st' = status st ∧ lastMessage st' = lastMessage st ∧
  sent st' = sent st ∧
  length (sockets st') = length (sockets st) ∧
  length (timeouts st') = length (timeouts st).
Proof.
  intros st0 st'.
  assert (mountedRef st0 = false ∧ pingInterval st0 = None ∧
          status st0 = status st ∧ lastMessage st0 = lastMessage st ∧
          sent st0 = sent st ∧
          length (sockets st0) = length (sockets st) ∧
          length (timeouts st0) = length (timeouts st)) as Hstart.
  { unfold st0. crush_hook. }
  revert Hstart. unfold st'. generalize st0. clear st0 st'.
  induction es as [|e es IH]; intros st0 Hst0; [done|].
  simpl. apply IH.
  destruct Hst0 as (Hm & Hp & <- & <- & <- & <- & <-).
  apply step_unmounted; done.
Qed.

(** **** Disconnecting *)

(** X9. [disconnect] cancels the retry it holds: afterwards both refs are
    empty, the timeout the hook referred to no longer connects when it
    fires, and [sendMessage] sends nothing. *)
Theorem disconnect_cancels_retry st (h : nat) (message : ClientMessage) :
  reconnectTimeoutRef st = Some h →
  reconnectTimeoutRef (disconnect st) = None ∧
  wsRef (disconnect st) = None ∧
  handle config (timeout_fires h) (disconnect st) = disconnect st ∧
  sendMessage message (disconnect st) = disconnect st ∧
  status (disconnect st) = status st.
Proof.
  intros Hh. unfold handle. crush_hook.
  all: repeat match goal with
       | H : <[_:=_]> _ !! _ = Some _ |- _ =>
           apply list_lookup_insert_Some in H as [(_ & <- & _)|[? _]]; try done
       end.
Qed.

(** **** The refs *)

(** The refs name objects that exist. *)
Lemma step_refs_in_range e st :
  (∀ i, wsRef st = Some i → i < length (sockets st)) →
  (∀ h, reconnectTimeoutRef st = Some h → h < length (timeouts st)) →
  (∀ i, wsRef (step config e st) = Some i → i < length (sockets (step config e st))) ∧
  (∀ h, reconnectTimeoutRef (step config e st) = Some h →
        h < length (timeouts (step config e st))).
Proof.
  intros Hws Hto. destruct e; unfold step, handle; crush_hook.
  all: split; intros ? ?; simplify_eq/=; rewrite ?length_app, ?length_insert;
    simpl; try lia.
  all: try (by apply Hws). all: try (by apply Hto).
  all: try (match goal with H : wsRef _ = Some _ |- _ => apply Hws in H end; lia).
  all: try (match goal with H : reconnectTimeoutRef _ = Some _ |- _ => apply Hto in H end; lia).
Qed.

(** X11. Over any run from mounting the refs never dangle: [wsRef] names a
    socket the hook created, [reconnectTimeoutRef] a timeout it set, and
    while the status is [connected] the attempt counter is zero. *)
Theorem refs_name_existing_objects (es : list Event) :
  let st := run config es (mount config) in
  (∀ i, wsRef st = Some i → is_Some (sockets st !! i)) ∧
  (∀ h, reconnectTimeoutRef st = Some h → is_Some (timeouts st !! h)) ∧
  (status st = connected → reconnectAttemptsRef st = 0%Z).
Proof.
  intros st.
  assert ((∀ i, wsRef st = Some i → i < length (sockets st)) ∧
          (∀ h, reconnectTimeoutRef st = Some h → h < length (timeouts st)))
    as [Hws Hto].
  { apply (run_invariant config (λ st,
      (∀ i, wsRef st = Some i → i < length (sockets st)) ∧
      (∀ h, reconnectTimeoutRef st = Some h → h < length (timeouts st)))).
    - intros e s [? ?]. by apply step_refs_in_range.
    - unfold mount. crush_hook. all: split; intros ? ?; simplify_eq/=; lia. }
  split; [|split].
  - intros i Hi. apply lookup_lt_is_Some. by apply Hws.
  - intros h Hh. apply lookup_lt_is_Some. by apply Hto.
  - apply (run_invariant config (λ st, status st = connected → reconnectAttemptsRef st = 0%Z)).
    + intros e s Hs. destruct e; unfold step, handle; crush_hook.
      all: intros; simplify_eq/=; try done; try by apply Hs.
    + unfold mount. crush_hook.
Qed.

(** **** Manual reconnect *)

Lemma disconnect_closes_current st :
  (∀ i, wsRef st = Some i → i < length (sockets st)) →
  mountedRef (disconnect st) = mountedRef st ∧
  length (sockets (disconnect st)) = length (sockets st) ∧
  reconnectTimeoutRef (disconnect st) = None ∧
  (∀ i, wsRef st = Some i →
        sockets (disconnect st) !! i ≠ Some OPEN ∧
        sockets (disconnect st) !! i ≠ Some CONNECTING).
Proof.
  intros Hws. unfold disconnect, clearTimeout, close_socket.
  destruct (wsRef st) as [i|] eqn:Hi.
  - specialize (Hws i eq_refl).
    repeat (case_match; simpl in *; simplify_eq/=); rewrite ?length_insert.
    all: split; [done|]; split; [done|]; split; [done|]; intros ? [= <-].
    all: rewrite ?list_lookup_insert_eq by lia; split; congruence.
  - repeat (case_match; simpl in *; simplify_eq/=); by repeat split.
Qed.

Lemma reconnect_fresh st :
  mountedRef st = true → url_ok config = true →
  (∀ i, wsRef st = Some i → i < length (sockets st)) →
  status (reconnect config st) = connecting ∧
  reconnectAttemptsRef (reconnect config st) = 0%Z ∧
  wsRef (reconnect config st) = Some (length (sockets st)) ∧
  sockets (reconnect config st) !! length (sockets st) = Some CONNECTING ∧
  reconnectTimeoutRef (reconnect config st) = None ∧
  (∀ i, wsRef st = Some i →
        sockets (reconnect config st) !! i ≠ Some OPEN ∧
        sockets (reconnect config st) !! i ≠ Some CONNECTING).
Proof.
  intros Hm Hurl Hws.
  destruct (disconnect_closes_current st Hws) as (Hm' & Hlen & Href & Hold).
  unfold reconnect, connect. simpl. rewrite Hm', Hm, Hurl. simpl.
  rewrite Hlen, Href. repeat split.
  - rewrite lookup_app_r by lia. by rewrite Hlen, Nat.sub_diag.
  - rewrite lookup_app_l by (rewrite Hlen; by apply Hws). by apply Hold.
  - rewrite lookup_app_l by (rewrite Hlen; by apply Hws). by apply Hold.
Qed.

(** X10. A manual [reconnect] of a mounted hook with an acceptable url, in
    any state reached from mounting: the status is [connecting], the
    attempt counter is reset, the current socket is a fresh one that is
    connecting, the retry ref is empty, and the socket that was current
    before is neither open nor connecting any more. *)
Theorem reconnect_opens_a_fresh_socket (es : list Event) :
  mountedRef (run config es (mount config)) = true → url_ok config = true →
  let st := run config es (mount config) in
  let st' := reconnect config st in
  status st' = connecting ∧ reconnectAttemptsRef st' = 0%Z ∧
  wsRef st' = Some (length (sockets st)) ∧
  sockets st' !! length (sockets st) = Some CONNECTING ∧
  reconnectTimeoutRef st' = None ∧
  (∀ i, wsRef st = Some i →
        sockets st' !! i ≠ Some OPEN ∧ sockets st' !! i ≠ Some CONNECTING).
Proof.
  intros Hm Hurl st st'. apply reconnect_fresh; [done|done|].
  apply (run_invariant config (λ st,
    (∀ i, wsRef st = Some i → i < length (sockets st)) ∧
    (∀ h, reconnectTimeoutRef st = Some h → h < length (timeouts st)))).
  - intros e s [? ?]. by apply step_refs_in_range.
  - unfold mount. crush_hook. all: split; intros ? ?; simplify_eq/=; lia.
Qed.

(** **** A close event from a replaced socket *)

(** X12. The close handler does not look at which socket closed.  When a
    socket that the hook has already replaced closes while the current
    socket is open and the status is [connected], the status still turns
    to [disconnected], the ping interval is cleared although the current
    socket stays open, and below the cap one more connection attempt is
    scheduled. *)
Theorem close_of_replaced_socket_disconnects st (i j : nat) :
  mountedRef st = true → status st = connected →
  wsRef st = Some j → sockets st !! j = Some OPEN →
  i ≠ j → sockets st !! i = Some CLOSING →
  let st' := step config (ws_close i) st in
  status st' = disconnected ∧ pingInterval st' = None ∧
  wsRef st' = Some j ∧ sockets st' !! j = Some OPEN ∧
  ((reconnectAttemptsRef st < maxReconnectAttempts config)%Z →
     timeouts st' = timeouts st ++ [mkTimeout (reconnectInterval config) timer_pending]).
Proof.
  intros Hm Hs Hj Hopen Hne Hclosing. unfold step, handle. rewrite Hclosing.
  unfold onclose, render, pingEffect. simpl. rewrite Hm, Hs. simpl.
  destruct (decide (reconnectAttemptsRef st < maxReconnectAttempts config)%Z);
    simpl; rewrite ?list_lookup_insert_ne by done; repeat split; try done.
Qed.

End ConnectionMore.

(** * Properties of the page's components *)

Section ComponentFacts.

Lemma double_0_8_above_half : (1 # 2 < SystemHealthCard.double_0_8)%Q.
Proof. unfold SystemHealthCard.double_0_8. lra. Qed.

Lemma number_lt_false (a b : number) : number_lt a b = false ↔ (b <= a)%Q.
Proof.
  rewrite <- not_true_iff_false, number_lt_spec.
  split; [apply Qnot_lt_le | apply Qle_not_lt].
Qed.

Ltac to_Q :=
  repeat match goal with
  | H : number_lt _ _ = true |- _ => apply number_lt_spec in H
  | H : number_lt _ _ = false |- _ => apply number_lt_false in H
  end.

(** X14. The quality bar is red exactly when the average quality is at most
    0.5.  Whenever the health derivation counts the quality as degraded
    the bar is red, and the two disagree (red bar, quality not degraded)
    exactly at a quality of 0.5. *)
Theorem quality_bar_red_iff_at_most_half (m : SystemMetrics.t) :
  let q := SystemMetrics.avg_connection_quality m in
  (SystemHealthCard.qualityBarColor q = "bg-red-500" ↔ (q <= 1 # 2)%Q) ∧
  (SystemHealth.degraded (Some m) = true →
     SystemHealthCard.qualityBarColor q = "bg-red-500") ∧
  (SystemHealthCard.qualityBarColor q = "bg-red-500" ∧
   SystemHealth.degraded (Some m) = false ↔ (q == 1 # 2)%Q).
Proof.
  intros q. pose proof double_0_8_above_half as Hd.
  unfold SystemHealthCard.qualityBarColor, SystemHealth.degraded. fold q.
  destruct (number_lt SystemHealthCard.double_0_8 q) eqn:H8;
    destruct (number_lt (1 # 2) q) eqn:H5;
    destruct (number_lt q (1 # 2)) eqn:Hdeg; to_Q.
  all: split; [split; intros; (done || lra) | split; [intros; (done || lra)|]].
  all: split; [intros [? ?]; (done || lra) | intros ?; split; (done || lra)].
Qed.

(** X15. The trend arrow of the quality card points down exactly when the
    health derivation counts the quality as degraded, and up exactly when
    the quality bar is green. *)
Theorem quality_trend_agrees_with_health (m : SystemMetrics.t) :
  (MetricsGrid.qualityTrend m = MetricsGrid.down ↔
     SystemHealth.degraded (Some m) = true) ∧
  (MetricsGrid.qualityTrend m = MetricsGrid.up ↔
     SystemHealthCard.qualityBarColor (SystemMetrics.avg_connection_quality m)
       = "bg-green-500").
Proof.
  pose proof double_0_8_above_half as Hd.
  unfold MetricsGrid.qualityTrend, SystemHealthCard.qualityBarColor, SystemHealth.degraded.
  set (q := SystemMetrics.avg_connection_quality m).
  destruct (number_lt SystemHealthCard.double_0_8 q) eqn:H8;
    destruct (number_lt (1 # 2) q) eqn:H5;
    destruct (number_lt q (1 # 2)) eqn:Hdeg; to_Q.
  all: split; split; intros; (done || lra).
Qed.

Lemma number_lt_0_length {A} (l : list A) :
  number_lt 0%Q (inject_Z (Z.of_nat (length l))) = true ↔ l ≠ [].
Proof.
  rewrite number_lt_spec. unfold Qlt, inject_Z. simpl. rewrite Z.mul_1_r.
  destruct l; simpl; split; try done; lia.
Qed.

(** X13. The page feeds the health card with [activeAlerts.length].  So
    the card reports [healthy] exactly when the socket is connected, the
    active list is empty and the quality is not degraded; with a connected
    socket and a non-empty active list it reports "Issues Detected"; and
    the alert badge is green exactly when the active list is empty. *)
Theorem page_health_follows_active_list (cs : ConnectionStatus) (st : useMetrics.State) :
  let props := App.systemHealthProps cs st in
  ((SystemHealth.getOverallHealth props).1 = SystemHealth.healthy ↔
     cs = connected ∧ useMetrics.activeAlerts st = [] ∧
     SystemHealth.degraded (useMetrics.currentMetrics st) = false) ∧
  (cs = connected → useMetrics.activeAlerts st ≠ [] →
     SystemHealth.getOverallHealth props = (SystemHealth.warning, "Issues Detected")) ∧
  (SystemHealthCard.alertBadgeColor (SystemHealth.activeAlertCount props)
     = "bg-green-100 text-green-800" ↔ useMetrics.activeAlerts st = []).
Proof.
  intros props. unfold SystemHealth.getOverallHealth, props, App.systemHealthProps. simpl.
  split; [|split].
  - case_decide as Hcs; simpl.
    + split; [done|]. by intros [? _].
    + destruct (number_lt 0%Q _) eqn:Hpos; simpl.
      * apply number_lt_0_length in Hpos. split; [done|]. by intros (_ & ? & _).
      * assert (useMetrics.activeAlerts st = []) as Hnil.
        { destruct (decide (useMetrics.activeAlerts st = [])) as [|Hne]; [done|].
          apply number_lt_0_length in Hne. congruence. }
        destruct (SystemHealth.degraded _); simpl; split; try done;
          by intros (_ & _ & ?).
  - intros -> Hne. rewrite decide_False by (by intros ?).
    by rewrite (proj2 (number_lt_0_length _) Hne).
  - unfold SystemHealthCard.alertBadgeColor.
    destruct (useMetrics.activeAlerts st) as [|a l]; [done|].
    split; [|done]. simpl length.
    replace (Qeq_bool (inject_Z (Z.of_nat (S (length l)))) 0) with false; [|done].
    by destruct (number_lt _ _).
Qed.

(** **** Durations and ages *)

(** X16. For a room created at or before the clock reading, the three parts
    of [formatDuration] recompose to the whole seconds elapsed, minutes and
    seconds stay below 60, and the text shows the two largest parts from
    the largest one that is not zero. *)
Theorem formatDuration_parts (created now : Z) :
  (created ≤ now)%Z →
  let d := diffSeconds created now in
  (0 ≤ d)%Z ∧ (1000 * d ≤ now - created < 1000 * d + 1000)%Z ∧
  (RoomDetail.hours d * 3600 + RoomDetail.minutes d * 60 + RoomDetail.seconds d = d)%Z ∧
  (0 ≤ RoomDetail.minutes d < 60)%Z ∧ (0 ≤ RoomDetail.seconds d < 60)%Z ∧
  RoomDetail.formatDuration created now =
    (if decide (3600 ≤ d)%Z then
       pretty (d / 3600)%Z +:+ "h " +:+ pretty (d `mod` 3600 / 60)%Z +:+ "m"
     else if decide (60 ≤ d)%Z then
       pretty (d / 60)%Z +:+ "m " +:+ pretty (d `mod` 60)%Z +:+ "s"
     else pretty d +:+ "s").
Proof.
  intros Hle d.
  assert (0 ≤ d)%Z as Hd by (unfold d, diffSeconds; apply Z.div_pos; lia).
  assert (Z.rem d 3600 = d `mod` 3600)%Z as Hr1 by (apply Z.rem_mod_nonneg; lia).
  assert (Z.rem d 60 = d `mod` 60)%Z as Hr2 by (apply Z.rem_mod_nonneg; lia).
  unfold RoomDetail.formatDuration, RoomDetail.hours, RoomDetail.minutes,
    RoomDetail.seconds. fold d. rewrite Hr1, Hr2.
  split; [done|]. split; [unfold d, diffSeconds; Z.div_mod_to_equations; lia|].
  split; [Z.div_mod_to_equations; lia|].
  split; [Z.div_mod_to_equations; lia|].
  split; [Z.div_mod_to_equations; lia|].
  destruct (decide (3600 ≤ d)%Z) as [Hh|Hh].
  - rewrite decide_True; [done|]. Z.div_mod_to_equations. lia.
  - rewrite decide_False by (Z.div_mod_to_equations; lia).
    rewrite (Z.mod_small d 3600) by lia.
    destruct (decide (60 ≤ d)%Z) as [Hm|Hm].
    + rewrite decide_True; [done|]. Z.div_mod_to_equations. lia.
    + rewrite decide_False by (Z.div_mod_to_equations; lia).
      by rewrite (Z.mod_small d 60) by lia.
Qed.

(** X17. For a room whose creation time lies ahead of the clock reading,
    however far, [formatDuration] shows seconds only, a number between -59
    and 0: the remainder of the (negative) elapsed seconds by 60. *)
Theorem formatDuration_ahead_of_clock (created now : Z) :
  (now < created)%Z →
  ∃ s, RoomDetail.formatDuration created now = pretty s +:+ "s" ∧
       s = Z.rem (diffSeconds created now) 60 ∧ (-60 < s ≤ 0)%Z.
Proof.
  intros Hlt. set (d := diffSeconds created now).
  assert (d < 0)%Z as Hd by (unfold d, diffSeconds; Z.div_mod_to_equations; lia).
  exists (Z.rem d 60). unfold RoomDetail.formatDuration, RoomDetail.hours,
    RoomDetail.minutes, RoomDetail.seconds. fold d.
  assert (-3600 < Z.rem d 3600 ≤ 0)%Z as H3600 by (Z.quot_rem_to_equations; lia).
  assert (-60 < Z.rem d 60 ≤ 0)%Z as H60 by (Z.quot_rem_to_equations; lia).
  rewrite decide_False by (Z.div_mod_to_equations; lia).
  rewrite decide_False by (Z.div_mod_to_equations; lia).
  split; [done|]. split; [done|]. lia.
Qed.

(** X18. [formatTimeAgo] shows the age in whole units, never more than the
    true age and within one unit of it: seconds below one minute (a
    negative number for a timestamp ahead of the clock), whole minutes
    from 1 to 59 below one hour, whole hours from then on. *)
Theorem formatTimeAgo_whole_units (date now : Z) :
  let d := diffSeconds date now in
  (1000 * d ≤ now - date < 1000 * d + 1000)%Z ∧
  ((d < 60)%Z → AlertsPanel.formatTimeAgo date now = pretty d +:+ "s ago") ∧
  ((60 ≤ d < 3600)%Z →
     ∃ n, AlertsPanel.formatTimeAgo date now = pretty n +:+ "m ago" ∧
          (1 ≤ n < 60)%Z ∧ (60 * n ≤ d < 60 * n + 60)%Z) ∧
  ((3600 ≤ d)%Z →
     ∃ n, AlertsPanel.formatTimeAgo date now = pretty n +:+ "h ago" ∧
          (1 ≤ n)%Z ∧ (3600 * n ≤ d < 3600 * n + 3600)%Z).
Proof.
  intros d. unfold AlertsPanel.formatTimeAgo. fold d.
  split; [unfold d, diffSeconds; Z.div_mod_to_equations; lia|].
  split; [|split].
  - intros Hd. by rewrite decide_True.
  - intros Hd. rewrite decide_False, decide_True by lia.
    exists (d / 60)%Z. split; [done|]. Z.div_mod_to_equations. lia.
  - intros Hd. rewrite !decide_False by lia.
    exists (d / 3600)%Z. split; [done|]. Z.div_mod_to_equations. lia.
Qed.

End ComponentFacts.

(** * The further properties at concrete inputs *)

Section MoreInstances.
Import useMetrics.

Lemma chart_shows_last_snapshots_witness :
  let messages :=
    [Protocol.metrics_update Sample.tick; Protocol.room_started Sample.standup;
     Protocol.metrics_update Sample.tick] in
  Forall (λ m, well_shaped m = true) messages ∧
  ∃ st', @replay Sample.verbatim messages initial = Some st' ∧
    chartData st' =
      @chartPoint Sample.verbatim <$> slice_last 60 (Reading.snapshots messages) ∧
    currentMetrics st' = last (Reading.snapshots messages).
Proof.
  assert (Forall (λ m, well_shaped m = true)
            [Protocol.metrics_update Sample.tick; Protocol.room_started Sample.standup;
             Protocol.metrics_update Sample.tick]) as Hshape
    by (repeat constructor).
  split; [exact Hshape|].
  exact (@chart_shows_last_snapshots Sample.verbatim _ Hshape).
Defined.

Lemma active_alerts_unique_and_active_witness :
  let es :=
    [ev_message (Protocol.alert_notice (Sample.high_disconnects active));
     ev_message (Protocol.alert_notice (Sample.high_disconnects active));
     ev_resolveAlert "alert-1" (res_ok (Sample.high_disconnects resolved))] in
  Forall (λ e, no_refresh e = true ∧ well_shaped_event e = true) es ∧
  ∃ st', @run Sample.verbatim es initial = Some st' ∧
    NoDup (Alert.id <$> activeAlerts st') ∧
    Forall (λ a, Alert.status a = active) (activeAlerts st').
Proof.
  assert (Forall (λ e, no_refresh e = true ∧ well_shaped_event e = true)
            [ev_message (Protocol.alert_notice (Sample.high_disconnects active));
             ev_message (Protocol.alert_notice (Sample.high_disconnects active));
             ev_resolveAlert "alert-1" (res_ok (Sample.high_disconnects resolved))])
    as Hes by (repeat constructor).
  split; [exact Hes|].
  exact (@active_alerts_unique_and_active Sample.verbatim _ Hes).
Defined.

Lemma resolved_alerts_unique_under_messages_witness :
  let messages :=
    [Protocol.alert_notice (Sample.high_disconnects resolved);
     Protocol.alert_notice (Sample.high_disconnects resolved)] in
  Forall (λ m, well_shaped m = true) messages ∧
  ∃ st', @replay Sample.verbatim messages initial = Some st' ∧
    NoDup (Alert.id <$> resolvedAlerts st').
Proof.
  assert (Forall (λ m, well_shaped m = true)
            [Protocol.alert_notice (Sample.high_disconnects resolved);
             Protocol.alert_notice (Sample.high_disconnects resolved)]) as Hshape
    by (repeat constructor).
  split; [exact Hshape|].
  exact (@resolved_alerts_unique_under_messages Sample.verbatim _ Hshape).
Defined.

Lemma resolved_alert_message_moves_alert_witness :
  let alert := Sample.high_disconnects resolved in
  let st := setActiveAlerts (λ _, [Sample.high_disconnects active]) initial in
  Alert.status alert ≠ active ∧
  ∃ st', @handleMessage Sample.verbatim (Protocol.alert_notice alert) st = Some st' ∧
    activeAlerts st' `sublist_of` activeAlerts st ∧
    (∃ a, a ∈ resolvedAlerts st' ∧ Alert.id a = Alert.id alert).
Proof.
  assert (Alert.status (Sample.high_disconnects resolved) ≠ active) as Hs by done.
  split; [exact Hs|].
  destruct (@resolved_alert_message_moves_alert Sample.verbatim
              (Sample.high_disconnects resolved)
              (setActiveAlerts (λ _, [Sample.high_disconnects active]) initial) Hs)
    as (st' & Hstep & _ & Hsub & Hres & _).
  exists st'. split; [exact Hstep|]. split; [exact Hsub | exact Hres].
Defined.

Lemma message_touches_only_its_part_witness :
  let message := Protocol.room_started Sample.standup in
  let st' := setRooms (λ prev, prev ++ [Sample.standup]) initial in
  @handleMessage Sample.verbatim message initial = Some st' ∧
  currentMetrics st' = currentMetrics initial ∧ chartData st' = chartData initial ∧
  activeAlerts st' = activeAlerts initial ∧ resolvedAlerts st' = resolvedAlerts initial.
Proof.
  split; [reflexivity|].
  exact (proj1 (@message_touches_only_its_part Sample.verbatim
                  (Protocol.room_started Sample.standup) initial
                  (setRooms (λ prev, prev ++ [Sample.standup]) initial) eq_refl)
               eq_refl).
Defined.

End MoreInstances.

Section MoreConnectionInstances.
Import useWebSocket.

Lemma disconnect_cancels_retry_witness :
  let st := run defaultConfig [ws_close 0] (mount defaultConfig) in
  reconnectTimeoutRef st = Some 0 ∧
  reconnectTimeoutRef (disconnect st) = None ∧
  handle defaultConfig (timeout_fires 0) (disconnect st) = disconnect st.
Proof.
  pose proof (disconnect_cancels_retry defaultConfig
                (run defaultConfig [ws_close 0] (mount defaultConfig)) 0 ping eq_refl)
    as (Href & _ & Hfire & _).
  split; [reflexivity|]. split; [exact Href | exact Hfire].
Defined.

Lemma reconnect_opens_a_fresh_socket_witness :
  let st := run defaultConfig [ws_open 0] (mount defaultConfig) in
  mountedRef st = true ∧ url_ok defaultConfig = true ∧
  status (reconnect defaultConfig st) = connecting ∧
  wsRef (reconnect defaultConfig st) = Some 1.
Proof.
  pose proof (reconnect_opens_a_fresh_socket defaultConfig [ws_open 0] eq_refl eq_refl)
    as (Hstatus & _ & Hws & _).
  split; [reflexivity|]. split; [reflexivity|]. split; [exact Hstatus | exact Hws].
Defined.

Lemma close_of_replaced_socket_disconnects_witness :
  let st := run defaultConfig [ws_open 0; call_reconnect; ws_open 1]
              (mount defaultConfig) in
  (mountedRef st = true ∧ status st = connected ∧ wsRef st = Some 1 ∧
   sockets st !! 1 = Some OPEN ∧ 0 ≠ 1 ∧ sockets st !! 0 = Some CLOSING) ∧
  status (step defaultConfig (ws_close 0) st) = disconnected ∧
  sockets (step defaultConfig (ws_close 0) st) !! 1 = Some OPEN.
Proof.
  assert (0 ≠ 1) as Hne by done.
  pose proof (close_of_replaced_socket_disconnects defaultConfig
                (run defaultConfig [ws_open 0; call_reconnect; ws_open 1]
                   (mount defaultConfig))
                0 1 eq_refl eq_refl eq_refl eq_refl Hne eq_refl)
    as (Hstatus & _ & _ & Hopen & _).
  split; [by repeat split|]. split; [exact Hstatus | exact Hopen].
Defined.

Lemma formatDuration_parts_witness :
  (0 ≤ 3725000)%Z ∧ RoomDetail.formatDuration 0 3725000 = "1h 2m".
Proof.
  assert (0 ≤ 3725000)%Z as Hle by done.
  split; [exact Hle|].
  pose proof (formatDuration_parts 0 3725000 Hle) as (_ & _ & _ & _ & _ & Hfmt).
  rewrite Hfmt. reflexivity.
Defined.

Lemma formatDuration_ahead_of_clock_witness :
  (0 < 7300000)%Z ∧
  ∃ s, RoomDetail.formatDuration 7300000 0 = pretty s +:+ "s" ∧ (-60 < s ≤ 0)%Z.
Proof.
  assert (0 < 7300000)%Z as Hlt by done.
  split; [exact Hlt|].
  destruct (formatDuration_ahead_of_clock 7300000 0 Hlt) as (s & Hfmt & _ & Hs).
  exists s. split; [exact Hfmt | exact Hs].
Defined.

End MoreConnectionInstances.
